(** * smart-conserve: the analysis-and-recommendation pipeline of [main.py]

    The program draws 168 readings with [random.uniform(200, 1000)],
    reduces them with [statistics.mean], [max] and [min], and maps the mean
    to a fixed list of tips.  Every stage wraps its body in
    [try: ... except Exception as e:] and reports through [logging].

    Python floats are IEEE-754 binary64 numbers.  They are modelled by the
    Standard Library's [spec_float] at precision 53 with infinities at
    exponent 1024, with the library's comparison, sum and product.  Every
    finite binary64 number is an integer multiple of [2^-1074]; the exact
    mean of [statistics.mean] is computed over [Z] in that unit and rounded
    to nearest, ties to even, and the library's sum and product are shown
    to be the exact results rounded the same way. *)

From Stdlib Require Import ZArith Lia List Bool QArith Qabs.
From Stdlib Require Import Floats.SpecFloat.
From stdpp Require Import gmap strings.

Local Open Scope Z_scope.

(** ** Binary64 floats *)

Module Binary64.

Definition prec : Z := 53.
Definition emax : Z := 1024.

(** The exponent of the smallest subnormal, negated: all finite values are
    multiples of [2^-scale]. *)
Definition scale : Z := 1074.

Definition valid (x : spec_float) : bool := valid_binary prec emax x.

Definition is_finite (x : spec_float) : bool :=
  match x with
  | S754_zero _ | S754_finite _ _ _ => true
  | S754_infinity _ | S754_nan => false
  end.

(** Exact value of a finite float in units of [2^-1074]. *)
Definition F2Z (x : spec_float) : Z :=
  match x with
  | S754_finite s m e => cond_Zopp s (Zpos m * 2 ^ (e + scale))
  | _ => 0
  end.

(** Exact value of a finite float as a rational. *)
Definition F2Q (x : spec_float) : Q := Qmake (F2Z x) (2 ^ 1074).

(** Number of bits of [|n|]. *)
Definition bitlen (n : Z) : Z := Zdigits2 n.

(** Number of low bits that a 53-bit mantissa cannot hold. *)
Definition shift_of (n : Z) : Z := Z.max 0 (bitlen n - prec).

(** [n] (in units of [2^-1074]) is a binary64 value, exponent unbounded
    above. *)
Definition representable (n : Z) : bool := n mod 2 ^ shift_of n =? 0.

(** Largest finite magnitude is below [2^1024], that is [2^2098] units. *)
Definition in_range (n : Z) : bool := Z.abs n <? 2 ^ (emax + scale).

(** [p/d] rounded to the nearest integer, ties to even, for [0 <= p] and
    [0 < d]. *)
Definition div_half_even (p d : Z) : Z :=
  let m := p / d in
  match 2 * (p mod d) ?= d with
  | Lt => m
  | Gt => m + 1
  | Eq => if Z.even m then m else m + 1
  end.

(** Round the non-negative rational [p/q] to nearest, ties to even: keep 53
    bits of the integer part, or every bit down to the unit. *)
Definition round_nonneg (p q : Z) : Z :=
  let s := shift_of (p / q) in
  div_half_even p (q * 2 ^ s) * 2 ^ s.

Definition round_ne (p : Z) (q : positive) : Z :=
  if p <? 0 then - round_nonneg (- p) (Zpos q) else round_nonneg p (Zpos q).

(** The float whose value is the representable [n]; [zs] is the sign given
    to a zero; magnitudes out of range become infinities. *)
Definition Z2F (zs : bool) (n : Z) : spec_float :=
  let s := shift_of n in
  match n / 2 ^ s with
  | Z0 => S754_zero zs
  | Zpos m => if in_range n then S754_finite false m (s - scale) else S754_infinity false
  | Zneg m => if in_range n then S754_finite true m (s - scale) else S754_infinity true
  end.

(** Python's comparison operators on two floats. *)
Definition float_lt (x y : spec_float) : bool := SFltb x y.
Definition float_le (x y : spec_float) : bool := SFleb x y.
Definition float_gt (x y : spec_float) : bool :=
  match SFcompare x y with Some Gt => true | _ => false end.
Definition float_ge (x y : spec_float) : bool :=
  match SFcompare x y with Some (Gt | Eq) => true | _ => false end.

(** [float(n)] for a Python int [n] below [2^1024] in magnitude (a larger
    one makes Python raise, and is an infinity here). *)
Definition float_of_int (n : Z) : spec_float :=
  binary_normalize prec emax n 0 false.

(** Python's [*] and [+] on two floats are the IEEE operations. *)
Definition float_mul (x y : spec_float) : spec_float := SFmul prec emax x y.
Definition float_add (x y : spec_float) : spec_float := SFadd prec emax x y.

End Binary64.

Import Binary64.

(** ** Python values, exceptions, the log *)

(** What a caller can pass for [average_usage]: the annotation says
    [float], the interpreter does not check it. *)
Inductive pyval :=
  | PyFloat (f : spec_float)
  | PyInt (n : Z)
  | PyStr (s : string)
  | PyNone.

Definition type_name (v : pyval) : string :=
  match v with
  | PyFloat _ => "float"
  | PyInt _ => "int"
  | PyStr _ => "str"
  | PyNone => "NoneType"
  end.

(** Instances of [Exception]: the errors the program and the library
    functions it calls raise. *)
Inductive exn_class :=
  | StatisticsError
  | ValueError
  | TypeError
  | KeyError
  | OverflowError
  | RuntimeError.

Record exn := Exn { exn_class_of : exn_class; exn_message : string }.

Inductive level := INFO | ERROR.

(** The value interpolated into an f-string message. *)
Inductive log_arg :=
  | ArgNone
  | ArgExn (e : exn)
  | ArgDict (d : gmap string spec_float)
  | ArgStr (s : string).

(** One emitted log line: level, literal text, interpolated value. *)
Record log_record := LogRecord {
  lr_level : level;
  lr_text : string;
  lr_arg : log_arg
}.

(** The state a run can read or change: the random source, a stream of
    53-bit draws with a cursor, and the lines logged so far. *)
Record world := World {
  rng : nat -> Z;
  rng_pos : nat;
  log : list log_record
}.

(** ** State and exception monad *)

Definition M (S A : Type) : Type := S -> (exn + A) * S.

Definition ret {S A} (a : A) : M S A := fun s => (inr a, s).

Definition bind {S A B} (m : M S A) (k : A -> M S B) : M S B :=
  fun s =>
    match m s with
    | (inl e, s') => (inl e, s')
    | (inr a, s') => k a s'
    end.

Definition raise {S A} (e : exn) : M S A := fun s => (inl e, s).

(** [try: body except Exception as e: handler e] *)
Definition try_except {S A} (body : M S A) (handler : exn -> M S A) : M S A :=
  fun s =>
    match body s with
    | (inl e, s') => handler e s'
    | (inr a, s') => (inr a, s')
    end.

Declare Scope py_scope.
Delimit Scope py_scope with py.
Notation "x <- m ;; k" := (bind m (fun x => k))
  (at level 100, m at next level, k at level 200, right associativity) : py_scope.
Notation "m ;; k" := (bind m (fun _ => k))
  (at level 100, k at level 200, right associativity) : py_scope.
Local Open Scope py_scope.

(** A function's local variable of type [L], next to the world. *)
Definition in_world {L A} (m : M world A) : M (L * world) A :=
  fun s =>
    let (r, w') := m (snd s) in (r, (fst s, w')).

Definition get_local {L S} : M (L * S) L := fun s => (inr (fst s), s).

Definition set_local {L S} (l : L) : M (L * S) unit :=
  fun s => (inr tt, (l, snd s)).

Definition with_local {L A} (l0 : L) (m : M (L * world) A) : M world A :=
  fun w =>
    let (r, s') := m (l0, w) in (r, snd s').

(** [for x in xs: body x] *)
Fixpoint for_each {S A} (xs : list A) (body : A -> M S unit) : M S unit :=
  match xs with
  | [] => ret tt
  | x :: xs' => body x ;; for_each xs' body
  end.

(** [[body for _ in range(n)]] *)
Fixpoint list_comp {S A} (n : nat) (body : M S A) : M S (list A) :=
  match n with
  | O => ret []
  | Datatypes.S n' => x <- body ;; xs <- list_comp n' body ;; ret (x :: xs)
  end.

(** ** Library functions *)

(** The world after one more log line. *)
Definition logged (lv : level) (text : string) (arg : log_arg) (w : world) : world :=
  World (rng w) (rng_pos w) (log w ++ [LogRecord lv text arg]).

Definition logging_emit (lv : level) (text : string) (arg : log_arg) : M world unit :=
  fun w => (inr tt, logged lv text arg w).

Definition logging_error := logging_emit ERROR.
Definition logging_info := logging_emit INFO.

(** [random.random()]: the next draw [k], [0 <= k < 2^53], as the float
    [k * 2^-53]. *)
Definition random_random : M world spec_float :=
  fun w =>
    (inr (binary_normalize prec emax (rng w (rng_pos w) mod 2 ^ 53) (- 53) false),
     World (rng w) (Datatypes.S (rng_pos w)) (log w)).

(** [random.uniform(a, b)] is [a + (b - a) * random()], for ints [a], [b]. *)
Definition random_uniform (a b : Z) : M world spec_float :=
  r <- random_random ;;
  ret (float_add (float_of_int a) (float_mul (float_of_int (b - a)) r)).

(** [max(data)] and [min(data)]: the first element no later element beats
    under [>] (resp. [<]); [ValueError] on an empty list. *)
Definition py_max {S} (data : list spec_float) : M S spec_float :=
  match data with
  | [] => raise (Exn ValueError "max() arg is an empty sequence")
  | x :: rest =>
      ret (fold_left (fun best item => if float_gt item best then item else best) rest x)
  end.

Definition py_min {S} (data : list spec_float) : M S spec_float :=
  match data with
  | [] => raise (Exn ValueError "min() arg is an empty sequence")
  | x :: rest =>
      ret (fold_left (fun best item => if float_lt item best then item else best) rest x)
  end.

Definition sum_Z (zs : list Z) : Z := fold_right Z.add 0 zs.

(** [statistics.mean(data)] on a list of floats.  [_sum] adds the finite
    values exactly as fractions and the others (infinities, NaN) as floats;
    if there is a non-finite value, their float sum is the total and
    [total / n] is a float division; otherwise the exact fraction
    [total / n] is converted with [float], which rounds correctly and
    raises [OverflowError] out of range. *)
Definition statistics_mean {S} (data : list spec_float) : M S spec_float :=
  match data with
  | [] => raise (Exn StatisticsError "mean requires at least one data point")
  | _ :: _ =>
      match List.filter (fun x => negb (is_finite x)) data with
      | [] =>
          let total := sum_Z (map F2Z data) in
          let r := round_ne total (Pos.of_nat (length data)) in
          if in_range r then ret (Z2F false r)
          else raise (Exn OverflowError "integer division result too large for a float")
      | x :: rest =>
          let total := fold_left (SFadd prec emax) rest x in
          ret (SFdiv prec emax total (float_of_int (Z.of_nat (length data))))
      end
  end.

(** [average_usage > n] and the like against a small int literal [n]
    (exactly a float, as 500 and 750 are): a float is compared as a float,
    an int as an int, anything else raises [TypeError]. *)
Definition compare_with_int (v : pyval) (n : Z) : option (option comparison) :=
  match v with
  | PyFloat f => Some (SFcompare f (float_of_int n))
  | PyInt i => Some (Some (i ?= n))
  | PyStr _ | PyNone => None
  end.

Definition not_supported (op l r : string) : exn :=
  Exn TypeError ("'" +:+ op +:+ "' not supported between instances of '"
                 +:+ l +:+ "' and '" +:+ r +:+ "'").

(** [v > n] *)
Definition py_gt_int {S} (v : pyval) (n : Z) : M S bool :=
  match compare_with_int v n with
  | Some (Some Gt) => ret true
  | Some _ => ret false
  | None => raise (not_supported ">" (type_name v) "int")
  end.

(** [v <= n] *)
Definition py_le_int {S} (v : pyval) (n : Z) : M S bool :=
  match compare_with_int v n with
  | Some (Some (Lt | Eq)) => ret true
  | Some _ => ret false
  | None => raise (not_supported "<=" (type_name v) "int")
  end.

(** [n < v] *)
Definition py_int_lt {S} (n : Z) (v : pyval) : M S bool :=
  match compare_with_int v n with
  | Some (Some Gt) => ret true
  | Some _ => ret false
  | None => raise (not_supported "<" "int" (type_name v))
  end.

(** [d[key]] *)
Definition dict_getitem {S} (d : gmap string spec_float) (key : string) : M S spec_float :=
  match d !! key with
  | Some v => ret v
  | None => raise (Exn KeyError ("'" +:+ key +:+ "'"))
  end.

(** ** The program *)

(** Each function is its [try] body and the [except] handler around it. *)

(** [generate_mock_data], over the call that draws one reading. *)
Definition generate_mock_data_try (draw : M world spec_float) : M world (list spec_float) :=
  data <- list_comp (24 * 7) draw ;;
  ret data.

Definition generate_mock_data_with (draw : M world spec_float) : M world (list spec_float) :=
  try_except
    (generate_mock_data_try draw)
    (fun e =>
       logging_error "Error generating mock data: " (ArgExn e) ;;
       ret []).

Definition generate_mock_data : M world (list spec_float) :=
  generate_mock_data_with (random_uniform 200 1000).

Definition analyze_energy_usage_try (data : list spec_float) : M world (gmap string spec_float) :=
  average_usage <- statistics_mean data ;;
  max_usage <- py_max data ;;
  min_usage <- py_min data ;;
  let insights : gmap string spec_float :=
    <["min_usage" := min_usage]>
      (<["max_usage" := max_usage]>
         (<["average_usage" := average_usage]> ∅)) in
  ret insights.

Definition analyze_energy_usage (data : list spec_float) : M world (gmap string spec_float) :=
  try_except
    (analyze_energy_usage_try data)
    (fun e =>
       logging_error "Error analyzing energy usage: " (ArgExn e) ;;
       ret ∅).

Definition tip_appliances : string := "Consider using energy-efficient appliances.".
Definition tip_insulation : string :=
  "Check insulation in your home to reduce heating/cooling costs.".
Definition tip_unplug : string := "Unplug devices when not in use.".
Definition tip_thermostats : string :=
  "Use programmable thermostats to reduce energy consumption.".
Definition tip_great : string :=
  "You're doing great! Continue monitoring for further improvements.".

(** [recommendations.append(s)] *)
Definition append (s : string) : M (list string * world) unit :=
  recommendations <- get_local ;;
  set_local (recommendations ++ [s]).

(** The local list [recommendations] is created before the [try] and
    returned after it, whatever happened in between. *)
Definition provide_recommendations_try (average_usage : pyval) : M (list string * world) unit :=
  high <- py_gt_int average_usage 750 ;;
  if high then
    append tip_appliances ;;
    append tip_insulation
  else
    above <- py_int_lt 500 average_usage ;;
    moderate <- (if above then py_le_int average_usage 750 else ret false) ;;
    if moderate then
      append tip_unplug ;;
      append tip_thermostats
    else
      append tip_great.

Definition provide_recommendations (average_usage : pyval) : M world (list string) :=
  with_local []
    (try_except
       (provide_recommendations_try average_usage)
       (fun e =>
          in_world (logging_error "Error providing recommendations: " (ArgExn e))) ;;
     get_local).

(** The body of [run_smart_conserve]'s [try], cut after each stage. *)
Definition run_on_insights (insights : gmap string spec_float) : M world unit :=
  if Nat.eqb (size insights) 0 then
    raise (Exn ValueError "Could not analyze energy data.")
  else
    logging_info "Energy Usage Insights: " (ArgDict insights) ;;
    average_usage <- dict_getitem insights "average_usage" ;;
    recommendations <- provide_recommendations (PyFloat average_usage) ;;
    logging_info "Energy Conservation Recommendations:" ArgNone ;;
    for_each recommendations (fun rec => logging_info "- " (ArgStr rec)).

Definition run_on_data (energy_data : list spec_float) : M world unit :=
  match energy_data with
  | [] => raise (Exn ValueError "No energy data available.")
  | _ :: _ =>
      insights <- analyze_energy_usage energy_data ;;
      run_on_insights insights
  end.

Definition run_smart_conserve_try : M world unit :=
  energy_data <- generate_mock_data ;;
  run_on_data energy_data.

(** The [try]/[except] of [run_smart_conserve] around a body. *)
Definition run_guarded (body : M world unit) : M world unit :=
  try_except
    body
    (fun e => logging_error "Error running smart-conserve: " (ArgExn e)).

Definition run_smart_conserve : M world unit :=
  run_guarded run_smart_conserve_try.

(** ** Vocabulary of the statements *)

Definition tips_high : list string := [tip_appliances; tip_insulation].
Definition tips_moderate : list string := [tip_unplug; tip_thermostats].
Definition tips_low : list string := [tip_great].

Definition all_tips : list string :=
  [tip_appliances; tip_insulation; tip_unplug; tip_thermostats; tip_great].

(** The value of [f] is above (resp. at most) the integer [t], in the
    extended reals; nothing is above or below a NaN. *)
Definition above (f : spec_float) (t : Z) : Prop :=
  match f with
  | S754_nan => False
  | S754_infinity s => s = false
  | _ => (inject_Z t < F2Q f)%Q
  end.

Definition at_most (f : spec_float) (t : Z) : Prop :=
  match f with
  | S754_nan => False
  | S754_infinity s => s = true
  | _ => (F2Q f <= inject_Z t)%Q
  end.

(** A Python float that is neither an infinity nor a NaN. *)
Definition finite_float (x : spec_float) : Prop :=
  valid x = true /\ is_finite x = true.

(** The exact arithmetic mean of finite floats. *)
Definition sum_Q (qs : list Q) : Q := fold_right Qplus 0%Q qs.

Definition exact_mean (data : list spec_float) : Q :=
  (sum_Q (map F2Q data) / inject_Z (Z.of_nat (length data)))%Q.

(** [max_usage >= average_usage >= min_usage], with Python's [>=]. *)
Definition insights_ordered (d : gmap string spec_float) : Prop :=
  exists avg mx mn,
    d !! "average_usage" = Some avg /\
    d !! "max_usage" = Some mx /\
    d !! "min_usage" = Some mn /\
    float_ge mx avg = true /\ float_ge avg mn = true.

(** The log line for tip [t]. *)
Definition tip_line (t : string) : log_record := LogRecord INFO "- " (ArgStr t).

(** What [provide_recommendations] returns on a float, by the outcome of
    the two comparisons. *)
Definition select_tips (c750 c500 : option comparison) : list string :=
  match c750 with
  | Some Gt => tips_high
  | _ =>
      match c500 with
      | Some Gt =>
          match c750 with
          | Some (Lt | Eq) => tips_moderate
          | _ => tips_low
          end
      | _ => tips_low
      end
  end.

(** A reading: a finite float in [[200, 1000)]. *)
Definition reading (v : spec_float) : Prop :=
  finite_float v /\ (inject_Z 200 <= F2Q v)%Q /\ (F2Q v < inject_Z 1000)%Q.

(** A world with a constant random source and an empty log. *)
Definition quiet_world : world := World (fun _ => 0) 0 [].

(** The reading [random.uniform(a, b)] makes of the draw [k]. *)
Definition uniform_value (a b k : Z) : spec_float :=
  float_add (float_of_int a)
    (float_mul (float_of_int (b - a)) (binary_normalize prec emax (k mod 2 ^ 53) (- 53) false)).

(** The dict literal of [analyze_energy_usage]. *)
Definition insights_record (average_usage max_usage min_usage : spec_float)
    : gmap string spec_float :=
  <["min_usage" := min_usage]>
    (<["max_usage" := max_usage]> (<["average_usage" := average_usage]> ∅)).

(** Python numbers among the values. *)
Definition is_number (v : pyval) : bool :=
  match v with
  | PyFloat _ | PyInt _ => true
  | PyStr _ | PyNone => false
  end.

(** The two lines a run logs before the tips. *)
Definition summary_lines (insights : gmap string spec_float) : list log_record :=
  [LogRecord INFO "Energy Usage Insights: " (ArgDict insights);
   LogRecord INFO "Energy Conservation Recommendations:" ArgNone].

(** * Facts about binary64 values *)

Section Bitlen.

Lemma digits2_size (p : positive) : digits2_pos p = Pos.size p.
Proof. induction p; simpl; congruence. Qed.

Lemma bitlen_log2 (n : Z) : 0 < n -> bitlen n = Z.log2 n + 1.
Proof.
  destruct n as [|p|p]; try lia. intros _.
  unfold bitlen, Zdigits2. destruct p; simpl; rewrite ?digits2_size; lia.
Qed.

Lemma bitlen_opp (n : Z) : bitlen (- n) = bitlen n.
Proof. destruct n; reflexivity. Qed.

Lemma bitlen_abs (n : Z) : bitlen (Z.abs n) = bitlen n.
Proof. destruct n; reflexivity. Qed.

Lemma bitlen_nonneg (n : Z) : 0 <= bitlen n.
Proof. destruct n; simpl; lia. Qed.

Lemma bitlen_bounds (n : Z) :
  0 < n -> 0 < bitlen n /\ 2 ^ (bitlen n - 1) <= n < 2 ^ bitlen n.
Proof.
  intros H. rewrite (bitlen_log2 n H).
  pose proof (Z.log2_nonneg n). pose proof (Z.log2_spec n H).
  replace (Z.log2 n + 1 - 1) with (Z.log2 n) by lia.
  replace (Z.log2 n + 1) with (Z.succ (Z.log2 n)) by lia. lia.
Qed.

Lemma bitlen_unique (n d : Z) :
  0 < d -> 2 ^ (d - 1) <= n < 2 ^ d -> bitlen n = d.
Proof.
  intros Hd H.
  assert (0 < n) by (pose proof (Z.pow_pos_nonneg 2 (d - 1)); lia).
  rewrite bitlen_log2 by assumption.
  rewrite (Z.log2_unique n (d - 1)); try lia.
  replace (Z.succ (d - 1)) with d by lia. assumption.
Qed.

Lemma bitlen_le_of_lt_pow (n k : Z) : 0 <= k -> 0 <= n < 2 ^ k -> bitlen n <= k.
Proof.
  intros Hk [H0 H]. destruct (Z.eq_dec n 0) as [->|Hn]; [simpl; lia|].
  destruct (bitlen_bounds n ltac:(lia)) as [Hp [Hlo _]].
  destruct (Z_le_gt_dec (bitlen n) k) as [|Hgt]; [assumption|].
  assert (2 ^ k <= 2 ^ (bitlen n - 1)) by (apply Z.pow_le_mono_r; lia). lia.
Qed.

Lemma bitlen_gt_of_ge_pow (n k : Z) : 0 <= k -> 2 ^ k <= n -> k < bitlen n.
Proof.
  intros Hk H.
  assert (0 < n) by (pose proof (Z.pow_pos_nonneg 2 k); lia).
  destruct (bitlen_bounds n ltac:(lia)) as [Hp [_ Hhi]].
  destruct (Z_lt_le_dec k (bitlen n)) as [|Hle]; [assumption|].
  assert (2 ^ bitlen n <= 2 ^ k) by (apply Z.pow_le_mono_r; lia). lia.
Qed.

Lemma bitlen_mul_pow2 (n k : Z) : 0 < n -> 0 <= k -> bitlen (n * 2 ^ k) = bitlen n + k.
Proof.
  intros Hn Hk. destruct (bitlen_bounds n Hn) as [Hp [Hlo Hhi]].
  apply bitlen_unique; [lia|].
  replace (bitlen n + k - 1) with (bitlen n - 1 + k) by lia.
  rewrite !Z.pow_add_r by lia.
  pose proof (Z.pow_pos_nonneg 2 k). nia.
Qed.

End Bitlen.

Section Representable.

Lemma pow2_pos (k : Z) : 0 <= k -> 0 < 2 ^ k.
Proof. intros. apply Z.pow_pos_nonneg; lia. Qed.

Lemma mul_pow2_mod (k a b : Z) : 0 <= a <= b -> (k * 2 ^ b) mod 2 ^ a = 0.
Proof.
  intros H. replace b with ((b - a) + a) by lia.
  rewrite Z.pow_add_r by lia. rewrite Z.mul_assoc. apply Z.mod_mul.
  pose proof (pow2_pos a). lia.
Qed.

Lemma mod_pow2_le (n a b : Z) : 0 <= a <= b -> n mod 2 ^ b = 0 -> n mod 2 ^ a = 0.
Proof.
  intros H Hb. pose proof (pow2_pos b).
  rewrite (Z.div_mod n (2 ^ b)) by lia. rewrite Hb, Z.add_0_r.
  rewrite Z.mul_comm. apply mul_pow2_mod; lia.
Qed.

Lemma shift_of_nonneg n : 0 <= shift_of n.
Proof. unfold shift_of. lia. Qed.

Lemma shift_of_opp n : shift_of (- n) = shift_of n.
Proof. unfold shift_of. now rewrite bitlen_opp. Qed.

Lemma representable_opp (n : Z) : representable n = true -> representable (- n) = true.
Proof.
  unfold representable. rewrite shift_of_opp. rewrite !Z.eqb_eq. intros H.
  pose proof (pow2_pos (shift_of n) (shift_of_nonneg n)).
  apply Z.mod_opp_l_z; [lia|assumption].
Qed.

Lemma representable_0 : representable 0 = true.
Proof. reflexivity. Qed.

Lemma representable_multiple (g s : Z) :
  representable g = true -> 0 <= s -> 2 ^ (52 + s) <= Z.abs g -> g mod 2 ^ s = 0.
Proof.
  unfold representable. rewrite Z.eqb_eq. intros Hr Hs Hg.
  apply (mod_pow2_le g s (shift_of g)); [|assumption].
  pose proof (bitlen_gt_of_ge_pow (Z.abs g) (52 + s) ltac:(lia) Hg) as Hb.
  rewrite bitlen_abs in Hb. unfold shift_of, prec. lia.
Qed.

Lemma representable_mul_pow2 (m s : Z) :
  0 <= m <= 2 ^ 53 -> 0 <= s -> representable (m * 2 ^ s) = true.
Proof.
  intros Hm Hs. unfold representable. rewrite Z.eqb_eq.
  destruct (Z.eq_dec m 0) as [->|Hm0]; [reflexivity|].
  destruct (Z.eq_dec m (2 ^ 53)) as [->|Hm1].
  - rewrite <- Z.pow_add_r by lia.
    replace (2 ^ (53 + s)) with (1 * 2 ^ (53 + s)) at 1 by lia.
    apply mul_pow2_mod. split; [apply shift_of_nonneg|].
    unfold shift_of, prec.
    rewrite (bitlen_unique (2 ^ (53 + s)) (54 + s)); try lia.
    replace (54 + s - 1) with (53 + s) by lia.
    replace (54 + s) with (Z.succ (53 + s)) by lia.
    rewrite Z.pow_succ_r by lia. pose proof (pow2_pos (53 + s)). lia.
  - apply mul_pow2_mod. split; [apply shift_of_nonneg|].
    unfold shift_of, prec. rewrite bitlen_mul_pow2 by lia.
    pose proof (bitlen_le_of_lt_pow m 53 ltac:(lia) ltac:(lia)). lia.
Qed.

End Representable.

(** ** Rounding to nearest *)

Section Rounding.

Lemma round_shape (p q : Z) :
  0 <= p -> 0 < q ->
  let s := shift_of (p / q) in
  let d := q * 2 ^ s in
  0 <= s /\ 0 < d /\ (0 < s -> 2 ^ 52 <= p / d) /\ p / d < 2 ^ 53.
Proof.
  intros Hp Hq s d.
  assert (Hs : 0 <= s) by apply shift_of_nonneg.
  pose proof (pow2_pos s Hs) as H2s.
  assert (Hd : 0 < d) by (unfold d; nia).
  assert (Hn : 0 <= p / q) by (apply Z.div_pos; lia).
  assert (Hdiv : p / d = p / q / 2 ^ s) by (unfold d; rewrite Z.div_div; lia).
  repeat split; try assumption.
  - intros Hs0. rewrite Hdiv.
    assert (Hb : bitlen (p / q) = 53 + s) by (unfold s, shift_of, prec in *; lia).
    assert (Hn0 : 0 < p / q).
    { destruct (Z.eq_dec (p / q) 0) as [E|E]; [rewrite E in Hb; simpl in Hb; lia|lia]. }
    destruct (bitlen_bounds _ Hn0) as [_ [Hlo _]]. rewrite Hb in Hlo.
    apply Z.div_le_lower_bound; [lia|].
    replace (53 + s - 1) with (s + 52) in Hlo by lia.
    rewrite Z.pow_add_r in Hlo by lia. lia.
  - rewrite Hdiv. apply Z.div_lt_upper_bound; [lia|].
    rewrite <- Z.pow_add_r by lia.
    destruct (Z.eq_dec (p / q) 0) as [E|E].
    + rewrite E. apply pow2_pos. lia.
    + destruct (bitlen_bounds (p / q) ltac:(lia)) as [_ [_ Hhi]].
      assert (2 ^ bitlen (p / q) <= 2 ^ (s + 53)).
      { apply Z.pow_le_mono_r; [lia|]. unfold s, shift_of, prec. lia. }
      lia.
Qed.

Lemma round_nonneg_cases (p q : Z) :
  0 <= p -> 0 < q ->
  let s := shift_of (p / q) in
  let d := q * 2 ^ s in
  exists m', round_nonneg p q = m' * 2 ^ s /\
    (m' = p / d \/ m' = p / d + 1) /\
    Z.abs (m' * d - p) <= p mod d /\ Z.abs (m' * d - p) <= d - p mod d.
Proof.
  intros Hp Hq s d.
  destruct (round_shape p q Hp Hq) as (Hs & Hd & _ & _). fold s in Hs, Hd. fold d in Hd.
  pose proof (Z.div_mod p d ltac:(lia)) as Hdm.
  pose proof (Z.mod_pos_bound p d Hd) as Hr.
  unfold round_nonneg, div_half_even. fold s. fold d.
  destruct (Z.compare_spec (2 * (p mod d)) d) as [E|E|E].
  - destruct (Z.even (p / d)); eexists; (split; [reflexivity|]); split; auto; lia.
  - eexists; (split; [reflexivity|]); split; auto; lia.
  - eexists; (split; [reflexivity|]); split; auto; lia.
Qed.

Lemma round_nonneg_spec (p q : Z) :
  0 <= p -> 0 < q ->
  0 <= round_nonneg p q /\
  representable (round_nonneg p q) = true /\
  forall g, representable g = true ->
    Z.abs (q * round_nonneg p q - p) <= Z.abs (q * g - p).
Proof.
  intros Hp Hq.
  destruct (round_shape p q Hp Hq) as (Hs & Hd & Hlo & Hhi).
  destruct (round_nonneg_cases p q Hp Hq) as (m' & -> & Hm' & Hr1 & Hr2).
  set (s := shift_of (p / q)) in *. set (d := q * 2 ^ s) in *.
  pose proof (pow2_pos s Hs) as H2s.
  pose proof (Z.div_mod p d ltac:(lia)) as Hdm.
  pose proof (Z.mod_pos_bound p d Hd) as Hr.
  assert (Hm0 : 0 <= p / d) by (apply Z.div_pos; lia).
  split; [nia|]. split.
  { apply representable_mul_pow2; lia. }
  intros g Hg.
  replace (q * (m' * 2 ^ s)) with (m' * d) by (unfold d; ring).
  destruct (Z.eq_dec (g mod 2 ^ s) 0) as [Hmul|Hnm].
  - pose proof (Z.div_mod g (2 ^ s) ltac:(lia)) as Hgk. rewrite Hmul, Z.add_0_r in Hgk.
    set (k := g / 2 ^ s) in *.
    replace (q * g) with (k * d) by (unfold d; rewrite Hgk at 1; ring).
    destruct (Z_le_gt_dec k (p / d)) as [Hk|Hk].
    + assert (0 <= (p / d - k) * d) by nia. lia.
    + assert (d <= (k - p / d) * d) by nia. lia.
  - assert (Hs0 : 0 < s).
    { destruct (Z.eq_dec s 0) as [E|E]; [|lia]. rewrite E in Hnm. simpl in Hnm.
      rewrite Z.mod_1_r in Hnm. lia. }
    assert (Hgs : Z.abs g < 2 ^ (52 + s)).
    { destruct (Z_lt_le_dec (Z.abs g) (2 ^ (52 + s))) as [|Hge]; [assumption|].
      exfalso. apply Hnm. apply representable_multiple; assumption. }
    rewrite Z.pow_add_r in Hgs by lia.
    specialize (Hlo Hs0).
    assert (q * g < q * (2 ^ 52 * 2 ^ s)) by (apply Z.mul_lt_mono_pos_l; lia).
    assert (2 ^ 52 * d <= p / d * d) by (apply Z.mul_le_mono_nonneg_r; lia).
    assert (q * (2 ^ 52 * 2 ^ s) = 2 ^ 52 * d) by (unfold d; ring).
    lia.
Qed.

Lemma round_ne_spec (p : Z) (q : positive) :
  representable (round_ne p q) = true /\
  forall g, representable g = true ->
    Z.abs (Zpos q * round_ne p q - p) <= Z.abs (Zpos q * g - p).
Proof.
  unfold round_ne. destruct (Z.ltb_spec p 0) as [Hneg|Hpos].
  - destruct (round_nonneg_spec (- p) (Zpos q) ltac:(lia) ltac:(lia)) as (_ & Hr & Hn).
    split; [now apply representable_opp|].
    intros g Hg. specialize (Hn (- g) (representable_opp g Hg)).
    replace (Zpos q * - round_nonneg (- p) (Zpos q) - p)
      with (- (Zpos q * round_nonneg (- p) (Zpos q) - - p)) by ring.
    replace (Zpos q * g - p) with (- (Zpos q * - g - - p)) by ring.
    rewrite !Z.abs_opp. exact Hn.
  - destruct (round_nonneg_spec p (Zpos q) Hpos ltac:(lia)) as (_ & Hr & Hn).
    split; assumption.
Qed.

Lemma round_ne_representable (p : Z) (q : positive) :
  representable (round_ne p q) = true.
Proof. apply round_ne_spec. Qed.

(** A representable value on one side of [p/q] stays on that side of the
    rounded result. *)
Lemma round_ne_ge (p : Z) (q : positive) (f : Z) :
  representable f = true -> Zpos q * f <= p -> f <= round_ne p q.
Proof.
  intros Hf Hle. destruct (round_ne_spec p q) as [_ Hn]. specialize (Hn f Hf).
  destruct (Z_le_gt_dec f (round_ne p q)) as [|Hgt]; [assumption|].
  assert (Zpos q * round_ne p q < Zpos q * f) by (apply Z.mul_lt_mono_pos_l; lia).
  lia.
Qed.

Lemma round_ne_le (p : Z) (q : positive) (f : Z) :
  representable f = true -> p <= Zpos q * f -> round_ne p q <= f.
Proof.
  intros Hf Hle. destruct (round_ne_spec p q) as [_ Hn]. specialize (Hn f Hf).
  destruct (Z_le_gt_dec (round_ne p q) f) as [|Hgt]; [assumption|].
  assert (Zpos q * f < Zpos q * round_ne p q) by (apply Z.mul_lt_mono_pos_l; lia).
  lia.
Qed.

Lemma round_ne_exact (q : positive) (f : Z) :
  representable f = true -> round_ne (Zpos q * f) q = f.
Proof.
  intros Hf. apply Z.le_antisymm; [apply round_ne_le|apply round_ne_ge]; auto; lia.
Qed.

Lemma round_ne_mono (p1 p2 : Z) (q : positive) :
  p1 <= p2 -> round_ne p1 q <= round_ne p2 q.
Proof.
  intros H.
  destruct (Z.eq_dec p1 p2) as [->|Hne]; [lia|].
  destruct (Z_le_gt_dec (Zpos q * round_ne p1 q) p2) as [Hle|Hgt].
  - apply round_ne_ge; [apply round_ne_representable|assumption].
  - destruct (Z_le_gt_dec (round_ne p1 q) (round_ne p2 q)) as [|Hc]; [assumption|].
    exfalso.
    (* p1 <= p2 < q * r1, and r2 < r1 *)
    destruct (round_ne_spec p1 q) as [_ Hn1]. destruct (round_ne_spec p2 q) as [Hr2 Hn2].
    specialize (Hn1 _ Hr2). specialize (Hn2 _ (round_ne_representable p1 q)).
    assert (Zpos q * round_ne p2 q < Zpos q * round_ne p1 q) by (apply Z.mul_lt_mono_pos_l; lia).
    lia.
Qed.

End Rounding.

(** ** Canonical floats and their integer values *)

Section Canonical.

Lemma valid_finite_inv (s : bool) (m : positive) (e : Z) :
  valid (S754_finite s m e) = true ->
  Z.max (bitlen (Zpos m) + e - 53) (- 1074) = e /\ e <= 971.
Proof.
  unfold valid, valid_binary, bounded, canonical_mantissa, fexp, SpecFloat.emin, prec, emax.
  rewrite andb_true_iff, Z.eqb_eq, Z.leb_le. simpl bitlen. lia.
Qed.

Lemma valid_finite_intro (s : bool) (m : positive) (e : Z) :
  Z.max (bitlen (Zpos m) + e - 53) (- 1074) = e -> e <= 971 ->
  valid (S754_finite s m e) = true.
Proof.
  unfold valid, valid_binary, bounded, canonical_mantissa, fexp, SpecFloat.emin, prec, emax.
  rewrite andb_true_iff, Z.eqb_eq, Z.leb_le. simpl bitlen. lia.
Qed.

Lemma in_range_opp (n : Z) : in_range (- n) = in_range n.
Proof. unfold in_range. now rewrite Z.abs_opp. Qed.

Lemma valid_representable (x : spec_float) :
  valid x = true -> representable (F2Z x) = true /\ in_range (F2Z x) = true.
Proof.
  destruct x as [s| s| |s m e]; try (intros _; split; reflexivity).
  intros Hv. destruct (valid_finite_inv s m e Hv) as [Hc He].
  assert (Hpos : representable (Zpos m * 2 ^ (e + scale)) = true /\
                 in_range (Zpos m * 2 ^ (e + scale)) = true).
  { unfold scale. destruct (bitlen_bounds (Zpos m) ltac:(lia)) as [Hd [_ Hhi]].
    split.
    - unfold representable. rewrite Z.eqb_eq. apply mul_pow2_mod.
      split; [apply shift_of_nonneg|].
      unfold shift_of, prec. rewrite bitlen_mul_pow2 by lia. lia.
    - unfold in_range, emax, scale. rewrite Z.ltb_lt.
      pose proof (pow2_pos (e + 1074) ltac:(lia)).
      rewrite Z.abs_eq by nia.
      assert (2 ^ bitlen (Zpos m) * 2 ^ (e + 1074) <= 2 ^ (1024 + 1074)).
      { rewrite <- Z.pow_add_r by lia. apply Z.pow_le_mono_r; lia. }
      nia. }
  destruct s; simpl F2Z; [|exact Hpos].
  destruct Hpos as [Hr Hi]. split; [now apply representable_opp|now rewrite in_range_opp].
Qed.

Lemma Z2F_zero (zs : bool) : Z2F zs 0 = S754_zero zs.
Proof. reflexivity. Qed.

Lemma Z2F_pos (zs : bool) (n : Z) :
  representable n = true -> in_range n = true -> 0 < n ->
  exists m, Z2F zs n = S754_finite false m (shift_of n - scale) /\
            Zpos m * 2 ^ shift_of n = n /\
            valid (S754_finite false m (shift_of n - scale)) = true.
Proof.
  unfold representable, in_range, emax, scale. rewrite Z.eqb_eq, Z.ltb_lt.
  intros Hr Hi Hn.
  pose proof (shift_of_nonneg n) as Hs. pose proof (pow2_pos _ Hs) as H2.
  pose proof (Z.div_mod n (2 ^ shift_of n) ltac:(lia)) as Hdm.
  rewrite Hr, Z.add_0_r in Hdm.
  assert (Hk : 0 < n / 2 ^ shift_of n) by nia.
  destruct (n / 2 ^ shift_of n) as [|m|m] eqn:Ek; try lia.
  exists m. unfold Z2F. rewrite Ek.
  unfold in_range, emax, scale.
  replace (Z.abs n <? 2 ^ (1024 + 1074)) with true by (symmetry; apply Z.ltb_lt; lia).
  split; [reflexivity|]. split; [lia|].
  apply valid_finite_intro.
  - assert (Hb : bitlen n = bitlen (Zpos m) + shift_of n).
    { rewrite Hdm at 1. rewrite Z.mul_comm. apply bitlen_mul_pow2; lia. }
    unfold shift_of, prec in *. lia.
  - rewrite Z.abs_eq in Hi by lia.
    pose proof (bitlen_le_of_lt_pow n (1024 + 1074) ltac:(lia) ltac:(lia)).
    unfold shift_of, prec. lia.
Qed.

Lemma Z2F_opp (zs : bool) (n : Z) :
  representable n = true -> n <> 0 -> Z2F zs (- n) = SFopp (Z2F zs n).
Proof.
  unfold representable. rewrite Z.eqb_eq. intros Hr Hn.
  unfold Z2F. rewrite shift_of_opp, in_range_opp.
  pose proof (shift_of_nonneg n) as Hs. pose proof (pow2_pos _ Hs) as H2.
  rewrite Z.div_opp_l_z by lia.
  pose proof (Z.div_mod n (2 ^ shift_of n) ltac:(lia)) as Hdm.
  rewrite Hr, Z.add_0_r in Hdm.
  destruct (n / 2 ^ shift_of n) as [|m|m] eqn:Ek; try lia; simpl;
    destruct (in_range n); reflexivity.
Qed.

Lemma F2Z_opp (x : spec_float) : F2Z (SFopp x) = - F2Z x.
Proof. destruct x as [s|s| |[] m e]; simpl; lia. Qed.

Lemma valid_opp (x : spec_float) : valid (SFopp x) = valid x.
Proof. destruct x; reflexivity. Qed.

Lemma is_finite_opp (x : spec_float) : is_finite (SFopp x) = is_finite x.
Proof. destruct x; reflexivity. Qed.

(** [Z2F] inverts [F2Z] on the representable values in range. *)
Lemma Z2F_correct (zs : bool) (n : Z) :
  representable n = true -> in_range n = true ->
  valid (Z2F zs n) = true /\ is_finite (Z2F zs n) = true /\ F2Z (Z2F zs n) = n.
Proof.
  intros Hr Hi. destruct (Z.lt_trichotomy n 0) as [Hn|[->|Hn]].
  - replace n with (- - n) by lia.
    assert (Hr' : representable (- n) = true) by now apply representable_opp.
    rewrite Z2F_opp by (assumption || lia).
    rewrite valid_opp, is_finite_opp, F2Z_opp.
    destruct (Z2F_pos zs (- n) Hr' ltac:(now rewrite in_range_opp) ltac:(lia))
      as (m & -> & Hm & Hv).
    repeat split; try assumption. simpl. unfold scale.
    replace (shift_of (- n) - 1074 + 1074) with (shift_of (- n)) by lia. lia.
  - repeat split.
  - destruct (Z2F_pos zs n Hr Hi Hn) as (m & -> & Hm & Hv).
    repeat split; try assumption. simpl. unfold scale.
    replace (shift_of n - 1074 + 1074) with (shift_of n) by lia. lia.
Qed.

Lemma canonical_lt (m1 m2 : positive) (e1 e2 : Z) :
  Z.max (bitlen (Zpos m1) + e1 - 53) (- 1074) = e1 ->
  Z.max (bitlen (Zpos m2) + e2 - 53) (- 1074) = e2 ->
  e1 < e2 ->
  Zpos m1 * 2 ^ (e1 + scale) < Zpos m2 * 2 ^ (e2 + scale).
Proof.
  unfold scale. intros H1 H2 Hlt.
  destruct (bitlen_bounds (Zpos m1) ltac:(lia)) as [Hd1 [_ Hhi1]].
  destruct (bitlen_bounds (Zpos m2) ltac:(lia)) as [Hd2 [Hlo2 _]].
  assert (Hb2 : bitlen (Zpos m2) = 53) by lia. rewrite Hb2 in Hlo2. simpl Z.sub in Hlo2.
  assert (Hb1 : bitlen (Zpos m1) <= 53) by lia.
  assert (Hm1 : Zpos m1 < 2 ^ 53).
  { assert (2 ^ bitlen (Zpos m1) <= 2 ^ 53) by (apply Z.pow_le_mono_r; lia). lia. }
  pose proof (pow2_pos (e1 + 1074) ltac:(lia)) as P1.
  assert (E : 2 ^ (e2 + 1074) = 2 ^ (e2 - e1) * 2 ^ (e1 + 1074)).
  { rewrite <- Z.pow_add_r by lia. f_equal. lia. }
  rewrite E.
  assert (P2 : 2 ^ 1 <= 2 ^ (e2 - e1)) by (apply Z.pow_le_mono_r; lia).
  change (2 ^ 1) with 2 in P2.
  change (2 ^ 53) with (2 * 2 ^ 52) in Hm1.
  assert (Zpos m1 < 2 ^ (e2 - e1) * Zpos m2) by nia.
  nia.
Qed.

Lemma compare_finite (x y : spec_float) :
  valid x = true -> valid y = true -> is_finite x = true -> is_finite y = true ->
  SFcompare x y = Some (F2Z x ?= F2Z y).
Proof.
  intros Hx Hy Fx Fy.
  destruct x as [sx|sx| |sx mx ex]; try discriminate;
  destruct y as [sy|sy| |sy my ey]; try discriminate.
  - reflexivity.
  - destruct (valid_finite_inv _ _ _ Hy) as [Hc _].
    pose proof (pow2_pos (ey + scale) ltac:(unfold scale; lia)).
    unfold SFcompare, F2Z, cond_Zopp. f_equal. symmetry.
    destruct sy; [apply Z.compare_gt_iff|apply Z.compare_lt_iff]; nia.
  - destruct (valid_finite_inv _ _ _ Hx) as [Hc _].
    pose proof (pow2_pos (ex + scale) ltac:(unfold scale; lia)).
    unfold SFcompare, F2Z, cond_Zopp. f_equal. symmetry.
    destruct sx; [apply Z.compare_lt_iff|apply Z.compare_gt_iff]; nia.
  - destruct (valid_finite_inv _ _ _ Hx) as [Hcx _].
    destruct (valid_finite_inv _ _ _ Hy) as [Hcy _].
    pose proof (pow2_pos (ex + scale) ltac:(unfold scale; lia)) as Px.
    pose proof (pow2_pos (ey + scale) ltac:(unfold scale; lia)) as Py.
    assert (Hcmp : (Zpos mx * 2 ^ (ex + scale) ?= Zpos my * 2 ^ (ey + scale)) =
                   match ex ?= ey with
                   | Lt => Lt | Gt => Gt | Eq => Pos.compare_cont Eq mx my end).
    { destruct (Z.compare_spec ex ey) as [E|E|E].
      - subst ey. change (Pos.compare_cont Eq mx my) with (Z.pos mx ?= Z.pos my).
        destruct (Z.compare_spec (Z.pos mx) (Z.pos my)) as [E|E|E].
        + rewrite E. apply Z.compare_refl.
        + apply Z.compare_lt_iff. nia.
        + apply Z.compare_gt_iff. nia.
      - apply Z.compare_lt_iff. now apply canonical_lt.
      - apply Z.compare_gt_iff. now apply canonical_lt. }
    unfold SFcompare, F2Z, cond_Zopp. f_equal.
    destruct sx, sy.
    + rewrite Z.compare_opp,
        (Z.compare_antisym (Z.pos mx * 2 ^ (ex + scale)) (Z.pos my * 2 ^ (ey + scale))), Hcmp.
      destruct (ex ?= ey); reflexivity.
    + symmetry. apply Z.compare_lt_iff. nia.
    + symmetry. apply Z.compare_gt_iff. nia.
    + now rewrite Hcmp.
Qed.

Lemma float_le_finite (x y : spec_float) :
  valid x = true -> valid y = true -> is_finite x = true -> is_finite y = true ->
  float_le x y = (F2Z x <=? F2Z y).
Proof.
  intros. unfold float_le, SFleb. rewrite (compare_finite x y) by assumption.
  unfold Z.leb. destruct (F2Z x ?= F2Z y); reflexivity.
Qed.

Lemma float_lt_finite (x y : spec_float) :
  valid x = true -> valid y = true -> is_finite x = true -> is_finite y = true ->
  float_lt x y = (F2Z x <? F2Z y).
Proof.
  intros. unfold float_lt, SFltb. rewrite (compare_finite x y) by assumption.
  unfold Z.ltb. destruct (F2Z x ?= F2Z y); reflexivity.
Qed.

Lemma float_gt_finite (x y : spec_float) :
  valid x = true -> valid y = true -> is_finite x = true -> is_finite y = true ->
  float_gt x y = (F2Z y <? F2Z x).
Proof.
  intros. unfold float_gt. rewrite (compare_finite x y) by assumption.
  rewrite (Z.ltb_antisym (F2Z x)). unfold Z.leb.
  destruct (F2Z x ?= F2Z y); reflexivity.
Qed.

Lemma float_ge_finite (x y : spec_float) :
  valid x = true -> valid y = true -> is_finite x = true -> is_finite y = true ->
  float_ge x y = (F2Z y <=? F2Z x).
Proof.
  intros. unfold float_ge. rewrite (compare_finite x y) by assumption.
  rewrite (Z.leb_antisym (F2Z x)). unfold Z.ltb.
  destruct (F2Z x ?= F2Z y); reflexivity.
Qed.

End Canonical.

(** ** The Standard Library's rounding *)

Section StdlibRounding.

Lemma iter_pos_nat {A} (f : A -> A) (p : positive) (x : A) :
  SpecFloat.iter_pos f p x = Nat.iter (Pos.to_nat p) f x.
Proof.
  revert x. induction p as [p IH|p IH|]; intros x; cbn [SpecFloat.iter_pos].
  - rewrite !IH. rewrite Pos2Nat.inj_xI.
    replace (S (2 * Pos.to_nat p))%nat with (Pos.to_nat p + S (Pos.to_nat p))%nat by lia.
    rewrite Nat.iter_add. f_equal. rewrite Nat.iter_succ_r. reflexivity.
  - rewrite !IH. rewrite Pos2Nat.inj_xO.
    replace (2 * Pos.to_nat p)%nat with (Pos.to_nat p + Pos.to_nat p)%nat by lia.
    rewrite Nat.iter_add. reflexivity.
  - reflexivity.
Qed.

Lemma shr_1_spec (m : Z) (r s : bool) :
  0 <= m ->
  shr_1 (Build_shr_record m r s) = Build_shr_record (m / 2) (Z.odd m) (r || s).
Proof.
  intros Hm. rewrite <- Z.div2_div.
  destruct m as [|[p|p|]|]; try lia; reflexivity.
Qed.

(** [n] right shifts of an exact mantissa: the quotient, the bit shifted
    out last, and whether any bit below it was set. *)
Lemma shr_iter_spec (m : Z) (n : nat) :
  0 <= m ->
  Nat.iter (S n) shr_1 (Build_shr_record m false false) =
  Build_shr_record (m / 2 ^ Z.of_nat (S n))
                   (Z.odd (m / 2 ^ Z.of_nat n))
                   (negb (m mod 2 ^ Z.of_nat n =? 0)).
Proof.
  intros Hm. induction n as [|n IH].
  - cbn [Nat.iter]. rewrite shr_1_spec by assumption.
    change (2 ^ Z.of_nat 1) with 2. change (2 ^ Z.of_nat 0) with 1.
    rewrite Z.div_1_r, Z.mod_1_r. reflexivity.
  - rewrite (Nat.iter_succ (S n)), IH.
    assert (P : 0 < 2 ^ Z.of_nat n) by (apply Z.pow_pos_nonneg; lia).
    assert (E : 2 ^ Z.of_nat (S n) = 2 ^ Z.of_nat n * 2).
    { rewrite Nat2Z.inj_succ, Z.pow_succ_r by lia. ring. }
    assert (P' : 0 < 2 ^ Z.of_nat (S n)) by lia.
    rewrite shr_1_spec by (apply Z.div_pos; lia).
    f_equal.
    + rewrite Z.div_div by lia.
      f_equal. rewrite (Nat2Z.inj_succ (S n)), Z.pow_succ_r by lia. ring.
    + rewrite E, Z.rem_mul_r by lia.
      rewrite Zmod_odd.
      pose proof (Z.mod_pos_bound m (2 ^ Z.of_nat n) P) as Hb.
      destruct (Z.odd (m / 2 ^ Z.of_nat n));
        destruct (Z.eqb_spec (m mod 2 ^ Z.of_nat n) 0) as [E0|E0]; cbn [orb negb];
        symmetry; first [apply negb_true_iff, Z.eqb_neq; lia
                        |apply negb_false_iff, Z.eqb_eq; lia].
Qed.


Lemma div_half_even_1 (m : Z) : div_half_even m 1 = m.
Proof. unfold div_half_even. rewrite Z.mod_1_r, Z.div_1_r. reflexivity. Qed.

(** Shifting an exact mantissa right and rounding on the bits shifted out
    is division by a power of two, rounded half to even. *)
Lemma shr_round_exact (m e n : Z) :
  0 <= m ->
  round_nearest_even (shr_m (fst (shr (Build_shr_record m false false) e n)))
                     (loc_of_shr_record (fst (shr (Build_shr_record m false false) e n)))
  = div_half_even m (2 ^ Z.max 0 n) /\
  snd (shr (Build_shr_record m false false) e n) = e + Z.max 0 n.
Proof.
  intros Hm. destruct n as [|p|p]; cbn [shr fst snd].
  - cbn. rewrite div_half_even_1. split; [reflexivity|lia].
  - rewrite iter_pos_nat.
    destruct (Pos2Nat.is_succ p) as [k Hk]. rewrite Hk.
    rewrite shr_iter_spec by assumption.
    assert (Ep : Z.pos p = Z.of_nat (S k)) by lia.
    rewrite Z.max_r by lia. rewrite Ep. split; [|reflexivity].
    cbn [shr_m].
    assert (P : 0 < 2 ^ Z.of_nat k) by (apply Z.pow_pos_nonneg; lia).
    assert (E : 2 ^ Z.of_nat (S k) = 2 ^ Z.of_nat k * 2).
    { rewrite Nat2Z.inj_succ, Z.pow_succ_r by lia. ring. }
    unfold div_half_even.
    assert (Hrem : m mod 2 ^ Z.of_nat (S k) =
                   m mod 2 ^ Z.of_nat k +
                   2 ^ Z.of_nat k * (if Z.odd (m / 2 ^ Z.of_nat k) then 1 else 0)).
    { rewrite E, Z.rem_mul_r by lia. rewrite Zmod_odd. reflexivity. }
    rewrite Hrem, E.
    pose proof (Z.mod_pos_bound m (2 ^ Z.of_nat k) P) as Hb.
    generalize (m / (2 ^ Z.of_nat k * 2)). intros m0.
    destruct (Z.odd (m / 2 ^ Z.of_nat k));
      destruct (Z.eqb_spec (m mod 2 ^ Z.of_nat k) 0) as [E0|E0];
      cbn [negb loc_of_shr_record round_nearest_even].
    + rewrite E0. replace (2 * (0 + 2 ^ Z.of_nat k * 1)) with (2 ^ Z.of_nat k * 2) by ring.
      rewrite Z.compare_refl. reflexivity.
    + replace (2 * (m mod 2 ^ Z.of_nat k + 2 ^ Z.of_nat k * 1) ?= 2 ^ Z.of_nat k * 2)
        with Gt by (symmetry; apply Z.compare_gt_iff; lia). reflexivity.
    + replace (2 * (m mod 2 ^ Z.of_nat k + 2 ^ Z.of_nat k * 0) ?= 2 ^ Z.of_nat k * 2)
        with Lt by (symmetry; apply Z.compare_lt_iff; lia). reflexivity.
    + replace (2 * (m mod 2 ^ Z.of_nat k + 2 ^ Z.of_nat k * 0) ?= 2 ^ Z.of_nat k * 2)
        with Lt by (symmetry; apply Z.compare_lt_iff; lia). reflexivity.
  - cbn. rewrite div_half_even_1. split; [reflexivity|lia].
Qed.

Lemma fexp_eq (z : Z) : fexp prec emax z = Z.max (z - 53) (- 1074).
Proof. reflexivity. Qed.

Lemma div_half_even_bounds (p d : Z) :
  p / d <= div_half_even p d <= p / d + 1.
Proof.
  unfold div_half_even. destruct (2 * (p mod d) ?= d); [destruct (Z.even (p / d))| |]; lia.
Qed.

Lemma shr_m_exact (m e n : Z) :
  0 <= m ->
  shr_m (fst (shr (Build_shr_record m false false) e n)) = m / 2 ^ Z.max 0 n /\
  snd (shr (Build_shr_record m false false) e n) = e + Z.max 0 n.
Proof.
  intros Hm. destruct n as [|p|p]; cbn [shr fst snd shr_m].
  - cbn. rewrite Z.div_1_r. split; [reflexivity|lia].
  - rewrite iter_pos_nat. destruct (Pos2Nat.is_succ p) as [k Hk]. rewrite Hk.
    rewrite shr_iter_spec by assumption. cbn [shr_m].
    rewrite Z.max_r by lia. replace (Z.pos p) with (Z.of_nat (S k)) by lia.
    split; reflexivity.
  - cbn. rewrite Z.div_1_r. split; [reflexivity|lia].
Qed.

(** The float with sign [s], mantissa [M] and exponent [E] in canonical
    form, or the infinity if [E] is too large, from its value. *)
Lemma Z2F_of_canonical (zs s : bool) (M : positive) (E : Z) :
  Z.max (bitlen (Zpos M) + E - 53) (- 1074) = E ->
  Z2F zs (cond_Zopp s (Zpos M * 2 ^ (E + scale))) =
  if E <=? 971 then S754_finite s M E else S754_infinity s.
Proof.
  intros Hc. unfold scale.
  assert (P : 0 < 2 ^ (E + 1074)) by (apply Z.pow_pos_nonneg; lia).
  set (n := Zpos M * 2 ^ (E + 1074)).
  assert (Hn : 0 < n) by (unfold n; nia).
  assert (Hs : shift_of n = E + 1074).
  { unfold shift_of, prec, n. rewrite bitlen_mul_pow2 by lia. lia. }
  assert (Hq : n / 2 ^ shift_of n = Zpos M).
  { rewrite Hs. unfold n. apply Z.div_mul. lia. }
  assert (Hrep : representable n = true).
  { unfold representable. apply Z.eqb_eq. rewrite Hs. unfold n. apply Z.mod_mul. lia. }
  assert (Hrange : in_range n = (E <=? 971)).
  { destruct (Z.leb_spec E 971) as [Hle|Hgt].
    - pose proof (valid_finite_intro false M E Hc Hle) as Hv.
      apply valid_representable in Hv. destruct Hv as [_ Hv]. exact Hv.
    - unfold in_range, emax, scale. apply Z.ltb_ge. rewrite Z.abs_eq by lia.
      destruct (bitlen_bounds (Zpos M) ltac:(lia)) as [_ [Hlo _]].
      assert (Hb : bitlen (Zpos M) = 53) by lia. rewrite Hb in Hlo.
      assert (2 ^ (1024 + 1074) <= 2 ^ (53 - 1) * 2 ^ (E + 1074)).
      { rewrite <- Z.pow_add_r by lia. apply Z.pow_le_mono_r; lia. }
      unfold n. nia. }
  assert (Hpos : Z2F zs n = if E <=? 971 then S754_finite false M E else S754_infinity false).
  { unfold Z2F. rewrite Hq, Hrange, Hs. unfold scale.
    replace (E + 1074 - 1074) with E by lia. reflexivity. }
  destruct s; cbn [cond_Zopp]; [|exact Hpos].
  rewrite Z2F_opp by (assumption || lia). rewrite Hpos.
  destruct (E <=? 971); reflexivity.
Qed.


(** The Standard Library's rounding of an exact mantissa and exponent, when
    the exponent is not above the canonical one. *)
Lemma binary_round_aux_exact (s : bool) (mz : positive) (e : Z) :
  e <= fexp prec emax (bitlen (Zpos mz) + e) ->
  let e1 := fexp prec emax (bitlen (Zpos mz) + e) in
  binary_round_aux prec emax s (Zpos mz) e loc_Exact =
  Z2F s (cond_Zopp s (div_half_even (Zpos mz) (2 ^ (e1 - e)) * 2 ^ (e1 + scale))).
Proof.
  intros He e1. change (e <= e1) in He.
  assert (He1 : e1 = Z.max (bitlen (Zpos mz) + e - 53) (- 1074)) by reflexivity.
  assert (Hf : fexp prec emax (bitlen (Zpos mz) + e) = e1) by reflexivity.
  clearbody e1.
  set (n := e1 - e). assert (Hn : 0 <= n) by (unfold n; lia).
  destruct (bitlen_bounds (Zpos mz) ltac:(lia)) as [Hd [Hlo Hhi]].
  set (d := bitlen (Zpos mz)) in Hd, Hlo, Hhi, He1.
  assert (Pn : 0 < 2 ^ n) by (apply Z.pow_pos_nonneg; lia).
  set (m1 := Zpos mz / 2 ^ n).
  assert (Hm1hi : m1 < 2 ^ 53).
  { unfold m1. apply Z.div_lt_upper_bound; [lia|].
    rewrite <- Z.pow_add_r by lia.
    assert (2 ^ d <= 2 ^ (n + 53)) by (apply Z.pow_le_mono_r; unfold n; lia). lia. }
  assert (Hm1lo : - 1074 < e1 -> 2 ^ 52 <= m1).
  { intros H. unfold m1. apply Z.div_le_lower_bound; [lia|].
    rewrite <- Z.pow_add_r by lia.
    assert (2 ^ (n + 52) <= 2 ^ (d - 1)) by (apply Z.pow_le_mono_r; unfold n; lia). lia. }
  assert (Hm10 : 0 <= m1) by (unfold m1; apply Z.div_pos; lia).
  set (m2 := div_half_even (Zpos mz) (2 ^ n)).
  pose proof (div_half_even_bounds (Zpos mz) (2 ^ n)) as Hm2. fold m1 m2 in Hm2.
  (* first shift and rounding *)
  unfold binary_round_aux, shr_fexp. cbn [shr_record_of_loc].
  change (Zdigits2 (Z.pos mz)) with (bitlen (Zpos mz)). rewrite Hf. fold n.
  destruct (shr_round_exact (Zpos mz) e n ltac:(lia)) as [Hr Hs'].
  rewrite Z.max_r in Hr, Hs' by lia. fold m2 in Hr.
  rewrite (surjective_pairing (shr _ e n)). rewrite Hr, Hs'.
  replace (e + n) with e1 by (unfold n; lia).
  (* second shift *)
  rewrite fexp_eq. change (Zdigits2 m2) with (bitlen m2).
  destruct (shr_m_exact m2 e1 (Z.max (bitlen m2 + e1 - 53) (-1074) - e1) ltac:(lia))
    as [Hq Hs2].
  rewrite (surjective_pairing (shr _ e1 _)). rewrite Hq, Hs2.
  destruct (Z.eq_dec m2 0) as [E0|E0].
  { rewrite E0. cbn [bitlen Zdigits2]. rewrite Z.max_l by lia.
    change (0 / 2 ^ 0) with 0. cbn [cond_Zopp]. destruct s; reflexivity. }
  destruct (Z.eq_dec m2 (2 ^ 53)) as [E1|E1].
  - (* the rounding carried into a 54th bit *)
    rewrite E1. change (bitlen (2 ^ 53)) with 54.
    replace (Z.max 0 (Z.max (54 + e1 - 53) (-1074) - e1)) with 1 by lia.
    change (2 ^ 53 / 2 ^ 1) with (Z.pos (2 ^ 52)).
    replace (2 ^ 53 * 2 ^ (e1 + scale)) with (Z.pos (2 ^ 52) * 2 ^ (e1 + 1 + scale)).
    2:{ unfold scale. replace (e1 + 1 + 1074) with (Z.succ (e1 + 1074)) by lia.
        rewrite Z.pow_succ_r by lia. change (2 ^ 53) with (Z.pos (2 ^ 52) * 2). ring. }
    rewrite Z2F_of_canonical by (change (bitlen (Z.pos (2 ^ 52))) with 53; lia).
    unfold prec, emax. change (1024 - 53) with 971. reflexivity.
  - assert (Hb : bitlen m2 <= 53) by (apply bitlen_le_of_lt_pow; lia).
    assert (Hb2 : - 1074 < e1 -> bitlen m2 = 53).
    { intros H. specialize (Hm1lo H).
      pose proof (bitlen_gt_of_ge_pow m2 52 ltac:(lia) ltac:(lia)). lia. }
    assert (Hcanon : Z.max (bitlen m2 + e1 - 53) (- 1074) = e1) by lia.
    rewrite Hcanon. replace (e1 - e1) with 0 by lia. rewrite Z.max_l by lia.
    change (2 ^ 0) with 1. rewrite Z.div_1_r, Z.add_0_r.
    destruct m2 as [|M|M] eqn:EM; try lia.
    rewrite Z2F_of_canonical by exact Hcanon.
    unfold prec, emax. change (1024 - 53) with 971. reflexivity.
Qed.

Lemma div_half_even_scale (p d c : Z) :
  0 < d -> 0 < c -> div_half_even (p * c) (d * c) = div_half_even p d.
Proof.
  intros Hd Hc. unfold div_half_even.
  rewrite Z.div_mul_cancel_r by lia. rewrite Z.mul_mod_distr_r by lia.
  replace (2 * (p mod d * c) ?= d * c) with (2 * (p mod d) ?= d); [reflexivity|].
  destruct (Z.compare_spec (2 * (p mod d)) d) as [E|E|E]; symmetry.
  - apply Z.compare_eq_iff. nia.
  - apply Z.compare_lt_iff. nia.
  - apply Z.compare_gt_iff. nia.
Qed.

Lemma bitlen_div_pow2 (m k : Z) :
  0 < m -> 0 <= k -> bitlen (m / 2 ^ k) = Z.max 0 (bitlen m - k).
Proof.
  intros Hm Hk. destruct (bitlen_bounds m Hm) as [Hd [Hlo Hhi]].
  assert (Pk : 0 < 2 ^ k) by (apply Z.pow_pos_nonneg; lia).
  destruct (Z_le_gt_dec (bitlen m) k) as [Hle|Hgt].
  - assert (2 ^ bitlen m <= 2 ^ k) by (apply Z.pow_le_mono_r; lia).
    rewrite Z.div_small by lia. cbn. lia.
  - rewrite Z.max_r by lia. apply bitlen_unique; [lia|]. split.
    + apply Z.div_le_lower_bound; [lia|]. rewrite <- Z.pow_add_r by lia.
      replace (k + (bitlen m - k - 1)) with (bitlen m - 1) by lia. exact Hlo.
    + apply Z.div_lt_upper_bound; [lia|]. rewrite <- Z.pow_add_r by lia.
      replace (k + (bitlen m - k)) with (bitlen m) by lia. exact Hhi.
Qed.

(** Rounding [mz * 2^e], written as a fraction of powers of two in units
    of [2^-1074], in terms of the canonical exponent. *)
Lemma round_nonneg_pow2 (mz : positive) (a b e : Z) :
  0 <= a -> 0 <= b -> a - b = e + scale ->
  let e1 := fexp prec emax (bitlen (Zpos mz) + e) in
  e <= e1 ->
  round_nonneg (Zpos mz * 2 ^ a) (2 ^ b) =
  div_half_even (Zpos mz) (2 ^ (e1 - e)) * 2 ^ (e1 + scale).
Proof.
  intros Ha Hb Hab e1 He.
  assert (He1 : e1 = Z.max (bitlen (Zpos mz) + e - 53) (- 1074)) by reflexivity.
  clearbody e1. unfold scale in *.
  assert (Pa : 0 < 2 ^ a) by (apply Z.pow_pos_nonneg; lia).
  assert (Pb : 0 < 2 ^ b) by (apply Z.pow_pos_nonneg; lia).
  destruct (bitlen_bounds (Zpos mz) ltac:(lia)) as [Hd _].
  assert (Hs : shift_of (Zpos mz * 2 ^ a / 2 ^ b) = e1 + 1074).
  { unfold shift_of, prec. destruct (Z_le_gt_dec b a) as [Hle|Hgt].
    - replace a with ((a - b) + b) by lia. rewrite Z.pow_add_r by lia.
      rewrite Z.mul_assoc, Z.div_mul by lia.
      rewrite bitlen_mul_pow2 by lia. lia.
    - replace b with ((b - a) + a) at 1 by lia. rewrite Z.pow_add_r by lia.
      rewrite Z.div_mul_cancel_r by (try apply Z.pow_nonzero; lia).
      rewrite bitlen_div_pow2 by lia. lia. }
  unfold round_nonneg. rewrite Hs. f_equal.
  rewrite <- Z.pow_add_r by lia.
  replace (b + (e1 + 1074)) with ((e1 - e) + a) by lia.
  rewrite Z.pow_add_r by lia.
  apply div_half_even_scale; [apply Z.pow_pos_nonneg|]; lia.
Qed.

Lemma round_ne_signed (s : bool) (p : Z) (q : positive) :
  0 < p -> round_ne (cond_Zopp s p) q = cond_Zopp s (round_nonneg p (Zpos q)).
Proof.
  intros Hp. unfold round_ne. destruct s; cbn [cond_Zopp].
  - replace (- p <? 0) with true by (symmetry; apply Z.ltb_lt; lia).
    rewrite Z.opp_involutive. reflexivity.
  - replace (p <? 0) with false by (symmetry; apply Z.ltb_ge; lia). reflexivity.
Qed.

Lemma Z2F_zero_sign_irrelevant (zs zs' : bool) (n : Z) :
  representable n = true -> n <> 0 -> Z2F zs n = Z2F zs' n.
Proof.
  unfold representable. rewrite Z.eqb_eq. intros Hr Hn. unfold Z2F.
  pose proof (shift_of_nonneg n) as Hs. pose proof (pow2_pos _ Hs) as P.
  pose proof (Z.div_mod n (2 ^ shift_of n) ltac:(lia)) as Hdm.
  rewrite Hr, Z.add_0_r in Hdm.
  destruct (n / 2 ^ shift_of n); [lia|reflexivity|reflexivity].
Qed.

End StdlibRounding.

(** ** The Standard Library's operations *)

Section StdlibOps.

Lemma iter_xO (m d : positive) : Zpos (Pos.iter xO m d) = Zpos m * 2 ^ Zpos d.
Proof.
  rewrite Pos2Nat.inj_iter. rewrite <- (positive_nat_Z d).
  induction (Pos.to_nat d) as [|k IH].
  - cbn. lia.
  - cbn [nat_rect]. rewrite Pos2Z.inj_xO, IH, Nat2Z.inj_succ, Z.pow_succ_r by lia. ring.
Qed.

Lemma shl_align_spec (mx : positive) (ex ex' : Z) :
  snd (shl_align mx ex ex') = Z.min ex ex' /\
  Zpos (fst (shl_align mx ex ex')) = Zpos mx * 2 ^ (ex - Z.min ex ex').
Proof.
  unfold shl_align. destruct (ex' - ex) as [|d|d] eqn:E; cbn [fst snd].
  - replace (Z.min ex ex') with ex by lia. rewrite Z.sub_diag. cbn. lia.
  - replace (Z.min ex ex') with ex by lia. rewrite Z.sub_diag. cbn. lia.
  - replace (Z.min ex ex') with ex' by lia. split; [reflexivity|].
    rewrite iter_xO. f_equal. f_equal. lia.
Qed.

(** [binary_round]: an exact mantissa and exponent, rounded. *)
Lemma binary_round_correct (s : bool) (mx : positive) (ex : Z) :
  - scale <= ex ->
  binary_round prec emax s mx ex =
  Z2F s (cond_Zopp s (round_nonneg (Zpos mx * 2 ^ (ex + scale)) 1)).
Proof.
  unfold scale. intros Hex. unfold binary_round.
  set (e1 := fexp prec emax (Zpos (digits2_pos mx) + ex)).
  assert (He1 : e1 = Z.max (bitlen (Zpos mx) + ex - 53) (- 1074)) by reflexivity.
  destruct (shl_align_spec mx ex e1) as [Hs Hm].
  rewrite (surjective_pairing (shl_align mx ex e1)).
  set (mz := fst (shl_align mx ex e1)) in *. set (ez := snd (shl_align mx ex e1)) in *.
  clearbody mz ez e1.
  destruct (bitlen_bounds (Zpos mx) ltac:(lia)) as [Hd _].
  assert (Hb : bitlen (Zpos mz) + ez = bitlen (Zpos mx) + ex).
  { rewrite Hm, Hs. rewrite bitlen_mul_pow2 by lia. lia. }
  assert (Hf : fexp prec emax (bitlen (Zpos mz) + ez) = e1).
  { rewrite Hb, He1. reflexivity. }
  rewrite binary_round_aux_exact by (rewrite Hf; lia).
  rewrite <- (round_nonneg_pow2 mz (ez + 1074) 0 ez)
    by (rewrite ?Hf; unfold scale; lia).
  change (2 ^ 0) with 1. f_equal. f_equal. f_equal.
  rewrite Hm, <- Z.mul_assoc, <- Z.pow_add_r by lia.
  f_equal. f_equal. lia.
Qed.

Lemma round_ne_pos (p : Z) (q : positive) :
  0 <= p -> round_ne p q = round_nonneg p (Zpos q).
Proof.
  intros Hp. unfold round_ne.
  replace (p <? 0) with false by (symmetry; apply Z.ltb_ge; lia). reflexivity.
Qed.

Lemma round_ne_opp (p : Z) (q : positive) : round_ne (- p) q = - round_ne p q.
Proof.
  unfold round_ne. destruct (Z.ltb_spec p 0), (Z.ltb_spec (- p) 0); try lia.
  - rewrite Z.opp_involutive. reflexivity.
  - assert (p = 0) by lia. subst p. reflexivity.
Qed.

Lemma round_ne_nonzero (p : Z) (q : positive) :
  Zpos q <= Z.abs p -> round_ne p q <> 0.
Proof.
  intros H. destruct (Z_lt_le_dec p 0) as [Hn|Hp].
  - pose proof (round_ne_le p q (- 1) eq_refl ltac:(lia)). lia.
  - pose proof (round_ne_ge p q 1 eq_refl ltac:(lia)). lia.
Qed.

(** The Standard Library's conversion of the integer [m] times [2^e]. *)
Lemma binary_normalize_correct (m e : Z) (zs : bool) :
  - scale <= e ->
  binary_normalize prec emax m e zs = Z2F zs (round_ne (m * 2 ^ (e + scale)) 1).
Proof.
  intros He. assert (P : 0 < 2 ^ (e + scale)) by (apply Z.pow_pos_nonneg; lia).
  destruct m as [|p|p]; cbn [binary_normalize].
  - reflexivity.
  - rewrite binary_round_correct by assumption. cbn [cond_Zopp].
    rewrite <- (round_ne_pos _ 1) by lia.
    apply Z2F_zero_sign_irrelevant; [apply round_ne_representable|].
    apply round_ne_nonzero. lia.
  - rewrite binary_round_correct by assumption. cbn [cond_Zopp].
    rewrite <- (round_ne_pos _ 1) by lia. rewrite <- round_ne_opp.
    replace (- (Z.pos p * 2 ^ (e + scale))) with (Z.neg p * 2 ^ (e + scale)) by lia.
    apply Z2F_zero_sign_irrelevant; [apply round_ne_representable|].
    apply round_ne_nonzero. lia.
Qed.


Lemma cond_Zopp_mul (sx sy : bool) (a b : Z) :
  cond_Zopp sx a * cond_Zopp sy b = cond_Zopp (xorb sx sy) (a * b).
Proof. destruct sx, sy; cbn [cond_Zopp xorb]; ring. Qed.

Lemma bitlen_mul_lower (a b : Z) : 0 < a -> 0 < b -> bitlen a + bitlen b - 1 <= bitlen (a * b).
Proof.
  intros Ha Hb.
  destruct (bitlen_bounds a Ha) as [Hda [Hla _]].
  destruct (bitlen_bounds b Hb) as [Hdb [Hlb _]].
  assert (H : 2 ^ (bitlen a + bitlen b - 2) <= a * b).
  { replace (bitlen a + bitlen b - 2) with ((bitlen a - 1) + (bitlen b - 1)) by lia.
    rewrite Z.pow_add_r by lia.
    assert (0 < 2 ^ (bitlen a - 1)) by (apply Z.pow_pos_nonneg; lia).
    assert (0 < 2 ^ (bitlen b - 1)) by (apply Z.pow_pos_nonneg; lia). nia. }
  pose proof (bitlen_gt_of_ge_pow (a * b) (bitlen a + bitlen b - 2) ltac:(lia) H). lia.
Qed.

(** The Standard Library's product of two finite non-zero floats is the
    exact product, rounded. *)
Lemma SFmul_finite (sx sy : bool) (mx my : positive) (ex ey : Z) :
  valid (S754_finite sx mx ex) = true -> valid (S754_finite sy my ey) = true ->
  SFmul prec emax (S754_finite sx mx ex) (S754_finite sy my ey) =
  Z2F (xorb sx sy)
      (round_ne (F2Z (S754_finite sx mx ex) * F2Z (S754_finite sy my ey)) (2 ^ 1074)).
Proof.
  intros Vx Vy.
  destruct (valid_finite_inv _ _ _ Vx) as [Cx _].
  destruct (valid_finite_inv _ _ _ Vy) as [Cy _].
  destruct (bitlen_bounds (Zpos mx) ltac:(lia)) as [Hdx _].
  destruct (bitlen_bounds (Zpos my) ltac:(lia)) as [Hdy _].
  pose proof (bitlen_mul_lower (Zpos mx) (Zpos my) ltac:(lia) ltac:(lia)) as Hd.
  cbn [SFmul F2Z]. unfold scale.
  assert (Px : 0 < 2 ^ (ex + 1074)) by (apply Z.pow_pos_nonneg; lia).
  assert (Py : 0 < 2 ^ (ey + 1074)) by (apply Z.pow_pos_nonneg; lia).
  rewrite cond_Zopp_mul. rewrite round_ne_signed by nia.
  assert (Hpre : ex + ey <= fexp prec emax (bitlen (Zpos (mx * my)) + (ex + ey))).
  { rewrite fexp_eq. change (Z.pos (mx * my)) with (Zpos mx * Zpos my). lia. }
  rewrite binary_round_aux_exact by exact Hpre.
  rewrite <- (round_nonneg_pow2 (mx * my) (ex + ey + 2148) 1074 (ex + ey))
    by (unfold scale; lia || exact Hpre).
  f_equal. f_equal. f_equal.
  change (Z.pos (mx * my)) with (Zpos mx * Zpos my).
  replace (ex + ey + 2148) with ((ex + 1074) + (ey + 1074)) by lia.
  rewrite Z.pow_add_r by lia. ring.
Qed.

(** The Standard Library's sum of two finite non-zero floats is the exact
    sum, rounded. *)
Lemma SFadd_finite (sx sy : bool) (mx my : positive) (ex ey : Z) :
  valid (S754_finite sx mx ex) = true -> valid (S754_finite sy my ey) = true ->
  SFadd prec emax (S754_finite sx mx ex) (S754_finite sy my ey) =
  Z2F false (round_ne (F2Z (S754_finite sx mx ex) + F2Z (S754_finite sy my ey)) 1).
Proof.
  intros Vx Vy.
  destruct (valid_finite_inv _ _ _ Vx) as [Cx _].
  destruct (valid_finite_inv _ _ _ Vy) as [Cy _].
  cbn [SFadd F2Z]. unfold scale.
  set (ez := Z.min ex ey).
  destruct (shl_align_spec mx ex ez) as [_ Hx].
  destruct (shl_align_spec my ey ez) as [_ Hy].
  rewrite Hx, Hy.
  replace (Z.min ex ez) with ez by (unfold ez; lia).
  replace (Z.min ey ez) with ez by (unfold ez; lia).
  rewrite binary_normalize_correct by (unfold scale, ez; lia).
  f_equal. f_equal. unfold scale.
  assert (Ex : 2 ^ (ex + 1074) = 2 ^ (ex - ez) * 2 ^ (ez + 1074)).
  { rewrite <- Z.pow_add_r by (unfold ez; lia). f_equal. lia. }
  assert (Ey : 2 ^ (ey + 1074) = 2 ^ (ey - ez) * 2 ^ (ez + 1074)).
  { rewrite <- Z.pow_add_r by (unfold ez; lia). f_equal. lia. }
  rewrite Ex, Ey. destruct sx, sy; cbn [cond_Zopp]; ring.
Qed.

End StdlibOps.

(** * The recommender *)

Section Recommender.

(** The int literals of the thresholds, as floats. *)
Lemma float_of_int_750 : float_of_int 750 = S754_finite false 6597069766656000 (-43).
Proof. vm_compute. reflexivity. Qed.

Lemma float_of_int_500 : float_of_int 500 = S754_finite false 8796093022208000 (-44).
Proof. vm_compute. reflexivity. Qed.

Lemma provide_recommendations_float (f : spec_float) (w : world) :
  provide_recommendations (PyFloat f) w =
  (inr (select_tips (SFcompare f (float_of_int 750)) (SFcompare f (float_of_int 500))), w).
Proof.
  unfold provide_recommendations, provide_recommendations_try, with_local, try_except,
    bind, py_gt_int, py_int_lt, py_le_int, compare_with_int.
  generalize (SFcompare f (float_of_int 750)) (SFcompare f (float_of_int 500)).
  intros [[]|] [[]|]; reflexivity.
Qed.

Lemma threshold_value (t : Z) (m : positive) (e : Z) :
  float_of_int t = S754_finite false m e ->
  valid (S754_finite false m e) = true ->
  F2Z (S754_finite false m e) = t * 2 ^ scale ->
  forall f, valid f = true ->
    (above f t <-> SFcompare f (float_of_int t) = Some Gt) /\
    (at_most f t <-> (SFcompare f (float_of_int t) = Some Lt \/
                      SFcompare f (float_of_int t) = Some Eq)).
Proof.
  intros -> Hv Hz f Hf.
  assert (HQ : forall g, (inject_Z t < F2Q g)%Q <-> t * 2 ^ scale < F2Z g).
  { intros g. unfold Qlt, F2Q, inject_Z, scale. cbn [Qnum Qden].
    rewrite Z.mul_1_r. change (Z.pos (2 ^ 1074)) with (2 ^ 1074). reflexivity. }
  assert (HQ' : forall g, (F2Q g <= inject_Z t)%Q <-> F2Z g <= t * 2 ^ scale).
  { intros g. unfold Qle, F2Q, inject_Z, scale. cbn [Qnum Qden].
    rewrite Z.mul_1_r. change (Z.pos (2 ^ 1074)) with (2 ^ 1074). reflexivity. }
  destruct (is_finite f) eqn:Ff.
  - assert (Ha : above f t <-> t * 2 ^ scale < F2Z f)
      by (destruct f; try discriminate; apply HQ).
    assert (Hm : at_most f t <-> F2Z f <= t * 2 ^ scale)
      by (destruct f; try discriminate; apply HQ').
    rewrite Ha, Hm, (compare_finite f _ Hf Hv Ff eq_refl), Hz.
    generalize (F2Z f) (t * 2 ^ scale). intros a b.
    destruct (Z.compare_spec a b) as [E|E|E]; split; split; intros H;
      try lia; try reflexivity; try discriminate; auto;
      destruct H; discriminate.
  - destruct f as [s|[]| |s fm fe]; try discriminate; simpl;
      split; split; intros H; try discriminate; try contradiction; auto;
      destruct H; discriminate.
Qed.

Lemma threshold_750 (f : spec_float) :
  valid f = true ->
  (above f 750 <-> SFcompare f (float_of_int 750) = Some Gt) /\
  (at_most f 750 <-> (SFcompare f (float_of_int 750) = Some Lt \/
                      SFcompare f (float_of_int 750) = Some Eq)).
Proof.
  apply (threshold_value 750 _ _ float_of_int_750); vm_compute; reflexivity.
Qed.

Lemma threshold_500 (f : spec_float) :
  valid f = true ->
  (above f 500 <-> SFcompare f (float_of_int 500) = Some Gt) /\
  (at_most f 500 <-> (SFcompare f (float_of_int 500) = Some Lt \/
                      SFcompare f (float_of_int 500) = Some Eq)).
Proof.
  apply (threshold_value 500 _ _ float_of_int_500); vm_compute; reflexivity.
Qed.


Lemma at_most_weaken (f : spec_float) (t u : Z) : t <= u -> at_most f t -> at_most f u.
Proof.
  intros Htu. destruct f; simpl; auto; intros H;
    (eapply Qle_trans; [exact H|]); unfold Qle, inject_Z; simpl; lia.
Qed.

(** C1: on a float, the recommender returns exactly the list of the
    threshold band the value lies in: above 750 the two high-usage tips,
    above 500 and at most 750 the two moderate-usage tips, at most 500 the
    single doing-great tip, each in source order; in particular at 760, 600
    and 300, given as floats or as ints.  Nothing is logged. *)
Theorem recommender_threshold_partition (average : spec_float) (w : world) :
  valid average = true ->
  (above average 750 ->
   provide_recommendations (PyFloat average) w =
   (inr ["Consider using energy-efficient appliances.";
         "Check insulation in your home to reduce heating/cooling costs."], w)) /\
  (above average 500 -> at_most average 750 ->
   provide_recommendations (PyFloat average) w =
   (inr ["Unplug devices when not in use.";
         "Use programmable thermostats to reduce energy consumption."], w)) /\
  (at_most average 500 ->
   provide_recommendations (PyFloat average) w =
   (inr ["You're doing great! Continue monitoring for further improvements."], w)) /\
  provide_recommendations (PyFloat (float_of_int 760)) w = (inr tips_high, w) /\
  provide_recommendations (PyFloat (float_of_int 600)) w = (inr tips_moderate, w) /\
  provide_recommendations (PyFloat (float_of_int 300)) w = (inr tips_low, w) /\
  provide_recommendations (PyInt 760) w = (inr tips_high, w) /\
  provide_recommendations (PyInt 600) w = (inr tips_moderate, w) /\
  provide_recommendations (PyInt 300) w = (inr tips_low, w).
Proof.
  intros Hv.
  destruct (threshold_750 average Hv) as [Ha750 Hm750].
  destruct (threshold_500 average Hv) as [Ha500 Hm500].
  split; [|split; [|split; [|repeat apply conj; vm_compute; reflexivity]]];
    rewrite provide_recommendations_float.
  - intros H. apply Ha750 in H. rewrite H. reflexivity.
  - intros H5 H7. apply Ha500 in H5. apply Hm750 in H7. rewrite H5.
    destruct H7 as [-> | ->]; reflexivity.
  - intros H5. pose proof (at_most_weaken _ 500 750 ltac:(lia) H5) as H7.
    apply Hm500 in H5. apply Hm750 in H7.
    destruct H7 as [-> | ->], H5 as [-> | ->]; reflexivity.
Qed.

Lemma recommender_threshold_partition_witness :
  valid (float_of_int 760) = true /\
  above (float_of_int 760) 750 /\
  provide_recommendations (PyFloat (float_of_int 760)) (World (fun _ => 0) 0 []) =
  (inr ["Consider using energy-efficient appliances.";
        "Check insulation in your home to reduce heating/cooling costs."],
   World (fun _ => 0) 0 []).
Proof.
  assert (Hv : valid (float_of_int 760) = true) by (vm_compute; reflexivity).
  assert (Ha : above (float_of_int 760) 750) by (vm_compute; reflexivity).
  split; [exact Hv|]. split; [exact Ha|].
  exact (proj1 (recommender_threshold_partition (float_of_int 760)
                  (World (fun _ => 0) 0 []) Hv) Ha).
Defined.

Lemma provide_recommendations_int (n : Z) (w : world) :
  provide_recommendations (PyInt n) w =
  (inr (select_tips (Some (n ?= 750)) (Some (n ?= 500))), w).
Proof.
  unfold provide_recommendations, provide_recommendations_try, with_local, try_except,
    bind, py_gt_int, py_int_lt, py_le_int, compare_with_int.
  destruct (n ?= 750), (n ?= 500); reflexivity.
Qed.

(** C7: on a float (and on an int) the recommender is a function of that
    number alone: it never raises, returns the same list in any two worlds
    (whatever the random source and the log hold), and leaves the world as
    it found it. *)
Theorem recommender_pure (average : spec_float) (w1 w2 : world) :
  (exists tips,
     provide_recommendations (PyFloat average) w1 = (inr tips, w1) /\
     provide_recommendations (PyFloat average) w2 = (inr tips, w2)) /\
  (forall n : Z, exists tips,
     provide_recommendations (PyInt n) w1 = (inr tips, w1) /\
     provide_recommendations (PyInt n) w2 = (inr tips, w2)).
Proof.
  split.
  - eexists. rewrite !provide_recommendations_float. split; reflexivity.
  - intros n. eexists. rewrite !provide_recommendations_int. split; reflexivity.
Qed.

(** C8: on every float, NaN and the infinities included, the recommender
    returns a non-empty list of one or two tips, each one of the five fixed
    strings; a NaN, for which no comparison holds, gets the doing-great
    tip. *)
Theorem recommender_output_shape (average : spec_float) (w : world) :
  (exists tips,
     provide_recommendations (PyFloat average) w = (inr tips, w) /\
     tips <> [] /\
     (length tips = 1%nat \/ length tips = 2%nat) /\
     Forall (fun t => In t all_tips) tips) /\
  provide_recommendations (PyFloat S754_nan) w = (inr [tip_great], w).
Proof.
  rewrite !provide_recommendations_float. split; [|reflexivity].
  eexists. split; [reflexivity|].
  generalize (SFcompare average (float_of_int 750)) (SFcompare average (float_of_int 500)).
  intros [[]|] [[]|]; simpl select_tips; (split; [discriminate|]);
    (split; [simpl; auto|]);
    repeat (apply List.Forall_cons || apply List.Forall_nil);
    unfold all_tips; simpl; auto 10.
Qed.

End Recommender.

(** * The analyzer *)

Section Analyzer.

Lemma sum_Z_bounds (zs : list Z) (lo hi : Z) :
  Forall (fun z => lo <= z <= hi) zs ->
  Z.of_nat (length zs) * lo <= sum_Z zs <= Z.of_nat (length zs) * hi.
Proof.
  induction 1 as [|z zs Hz _ IH]; [simpl; lia|].
  cbn [length sum_Z fold_right]. fold (sum_Z zs). lia.
Qed.

Lemma finite_float_pick (b : bool) (x y : spec_float) :
  finite_float x -> finite_float y -> finite_float (if b then x else y).
Proof. destruct b; auto. Qed.

Lemma max_fold_spec (rest : list spec_float) (acc : spec_float) :
  finite_float acc -> Forall finite_float rest ->
  let r := fold_left (fun best item => if float_gt item best then item else best) rest acc in
  (r = acc \/ In r rest) /\ F2Z acc <= F2Z r /\ Forall (fun x => F2Z x <= F2Z r) rest.
Proof.
  intros Hacc Hrest. revert acc Hacc.
  induction Hrest as [|x rest Hx Hrest IH]; intros acc Hacc; cbn [fold_left].
  - repeat split; auto. lia.
  - destruct Hx as [Vx Fx], Hacc as [Va Fa].
    rewrite (float_gt_finite x acc Vx Va Fx Fa).
    destruct (Z.ltb_spec (F2Z acc) (F2Z x)) as [Hlt|Hge].
    + destruct (IH x (conj Vx Fx)) as (Hin & Hle & Hall).
      split; [destruct Hin as [->|Hin]; simpl; auto|].
      split; [lia|]. constructor; assumption.
    + destruct (IH acc (conj Va Fa)) as (Hin & Hle & Hall).
      split; [destruct Hin as [->|Hin]; simpl; auto|].
      split; [lia|]. constructor; [lia|assumption].
Qed.

Lemma min_fold_spec (rest : list spec_float) (acc : spec_float) :
  finite_float acc -> Forall finite_float rest ->
  let r := fold_left (fun best item => if float_lt item best then item else best) rest acc in
  (r = acc \/ In r rest) /\ F2Z r <= F2Z acc /\ Forall (fun x => F2Z r <= F2Z x) rest.
Proof.
  intros Hacc Hrest. revert acc Hacc.
  induction Hrest as [|x rest Hx Hrest IH]; intros acc Hacc; cbn [fold_left].
  - repeat split; auto. lia.
  - destruct Hx as [Vx Fx], Hacc as [Va Fa].
    rewrite (float_lt_finite x acc Vx Va Fx Fa).
    destruct (Z.ltb_spec (F2Z x) (F2Z acc)) as [Hlt|Hge].
    + destruct (IH x (conj Vx Fx)) as (Hin & Hle & Hall).
      split; [destruct Hin as [->|Hin]; simpl; auto|].
      split; [lia|]. constructor; assumption.
    + destruct (IH acc (conj Va Fa)) as (Hin & Hle & Hall).
      split; [destruct Hin as [->|Hin]; simpl; auto|].
      split; [lia|]. constructor; [lia|assumption].
Qed.

(** [max] and [min] of a non-empty list of finite floats: an element that
    bounds every element. *)
Lemma py_max_finite {S} (x : spec_float) (rest : list spec_float) (s : S) :
  Forall finite_float (x :: rest) ->
  exists mx, py_max (x :: rest) s = (inr mx, s) /\ In mx (x :: rest) /\
             Forall (fun y => F2Z y <= F2Z mx) (x :: rest).
Proof.
  intros H. inversion H as [|? ? Hx Hrest]; subst.
  destruct (max_fold_spec rest x Hx Hrest) as (Hin & Hle & Hall).
  eexists. split; [reflexivity|]. split.
  - destruct Hin as [->|Hin]; simpl; auto.
  - constructor; assumption.
Qed.

Lemma py_min_finite {S} (x : spec_float) (rest : list spec_float) (s : S) :
  Forall finite_float (x :: rest) ->
  exists mn, py_min (x :: rest) s = (inr mn, s) /\ In mn (x :: rest) /\
             Forall (fun y => F2Z mn <= F2Z y) (x :: rest).
Proof.
  intros H. inversion H as [|? ? Hx Hrest]; subst.
  destruct (min_fold_spec rest x Hx Hrest) as (Hin & Hle & Hall).
  eexists. split; [reflexivity|]. split.
  - destruct Hin as [->|Hin]; simpl; auto.
  - constructor; assumption.
Qed.

Lemma filter_nonfinite_nil (data : list spec_float) :
  Forall finite_float data -> List.filter (fun x => negb (is_finite x)) data = [].
Proof.
  induction 1 as [|x data [_ Fx] _ IH]; [reflexivity|].
  cbn [List.filter]. rewrite Fx. exact IH.
Qed.

Lemma in_range_between (lo r hi : Z) :
  in_range lo = true -> in_range hi = true -> lo <= r <= hi -> in_range r = true.
Proof. unfold in_range. rewrite !Z.ltb_lt. lia. Qed.

(** [statistics.mean] of a non-empty list of finite floats returns the
    correctly rounded exact mean, which lies between any two floats that
    bound the data. *)
Lemma statistics_mean_finite {S} (data : list spec_float) (s : S) (lo hi : spec_float) :
  data <> [] -> Forall finite_float data ->
  finite_float lo -> finite_float hi ->
  Forall (fun y => F2Z lo <= F2Z y <= F2Z hi) data ->
  let r := round_ne (sum_Z (map F2Z data)) (Pos.of_nat (length data)) in
  statistics_mean data s = (inr (Z2F false r), s) /\
  F2Z lo <= r <= F2Z hi /\ in_range r = true.
Proof.
  intros Hne Hfin [Vlo Flo] [Vhi Fhi] Hb r.
  destruct (valid_representable lo Vlo) as [Rlo Ilo].
  destruct (valid_representable hi Vhi) as [Rhi Ihi].
  assert (Hlen : Z.pos (Pos.of_nat (length data)) = Z.of_nat (length data)).
  { destruct data as [|x rest]; [congruence|]. cbn [length].
    rewrite <- Pos.of_nat_succ. reflexivity. }
  assert (Hsum := sum_Z_bounds (map F2Z data) (F2Z lo) (F2Z hi)).
  rewrite length_map in Hsum. rewrite Forall_map in Hsum. specialize (Hsum Hb).
  assert (Hr : F2Z lo <= r <= F2Z hi).
  { split; [apply round_ne_ge|apply round_ne_le]; auto; rewrite Hlen; lia. }
  assert (Hi : in_range r = true) by (apply (in_range_between (F2Z lo) r (F2Z hi)); assumption).
  split; [|split; assumption].
  unfold statistics_mean. destruct data as [|x rest]; [congruence|].
  rewrite (filter_nonfinite_nil _ Hfin). fold r. rewrite Hi. reflexivity.
Qed.


Lemma Qplus_same_den (a b : Z) (u : positive) : (a # u) + (b # u) == (a + b) # u.
Proof. unfold Qeq, Qplus. cbn [Qnum Qden]. rewrite Pos2Z.inj_mul. ring. Qed.

Lemma sum_Q_F2Q (data : list spec_float) :
  sum_Q (map F2Q data) == sum_Z (map F2Z data) # 2 ^ 1074.
Proof.
  induction data as [|x data IH]; [reflexivity|].
  cbn [map sum_Q sum_Z fold_right]. fold (sum_Q (map F2Q data)). fold (sum_Z (map F2Z data)).
  rewrite IH. unfold F2Q. apply Qplus_same_den.
Qed.

Lemma mean_distance (a s : Z) (u n : positive) :
  (a # u) - (s # u) / inject_Z (Zpos n) == (Zpos n * a - s) # (u * n).
Proof.
  unfold Qeq, Qminus, Qplus, Qopp, Qdiv, Qmult, Qinv, inject_Z. cbn [Qnum Qden].
  rewrite !Pos2Z.inj_mul. ring.
Qed.

Lemma Qle_same_den (a b : Z) (u : positive) : a <= b -> (a # u <= b # u)%Q.
Proof. intros H. unfold Qle. cbn [Qnum Qden]. apply Z.mul_le_mono_nonneg_r; lia. Qed.

(** The rounded mean is a float nearest to the exact mean. *)
Lemma rounded_mean_nearest (data : list spec_float) (avg g : spec_float) :
  data <> [] ->
  F2Z avg = round_ne (sum_Z (map F2Z data)) (Pos.of_nat (length data)) ->
  finite_float g ->
  (Qabs (F2Q avg - exact_mean data) <= Qabs (F2Q g - exact_mean data))%Q.
Proof.
  intros Hne Havg [Vg Fg].
  assert (Hlen : Z.of_nat (length data) = Z.pos (Pos.of_nat (length data))).
  { destruct data as [|x rest]; [congruence|]. cbn [length].
    rewrite <- Pos.of_nat_succ. reflexivity. }
  unfold exact_mean. rewrite Hlen, sum_Q_F2Q. unfold F2Q.
  rewrite !mean_distance. cbn [Qabs].
  apply Qle_same_den. rewrite Havg.
  apply round_ne_spec. apply valid_representable. exact Vg.
Qed.

Lemma insights_lookup (a b c : spec_float) :
  let d : gmap string spec_float :=
    <["min_usage" := c]> (<["max_usage" := b]> (<["average_usage" := a]> ∅)) in
  d !! "average_usage" = Some a /\ d !! "max_usage" = Some b /\ d !! "min_usage" = Some c.
Proof. intros d. unfold d. repeat split; simplify_map_eq; reflexivity. Qed.

Example analyze_200_800 :
  fst (analyze_energy_usage [float_of_int 200; float_of_int 800] quiet_world) =
  inr (<["min_usage" := float_of_int 200]>
         (<["max_usage" := float_of_int 800]> (<["average_usage" := float_of_int 500]> ∅))).
Proof. vm_compute. reflexivity. Qed.

(** The analyzer on a non-empty list of finite floats. *)
Lemma analyze_energy_usage_finite (data : list spec_float) (w : world) :
  data <> [] -> Forall finite_float data ->
  exists avg mx mn,
    analyze_energy_usage data w =
      (inr (<["min_usage" := mn]>
              (<["max_usage" := mx]> (<["average_usage" := avg]> ∅))), w) /\
    finite_float avg /\
    (forall g, finite_float g ->
       (Qabs (F2Q avg - exact_mean data) <= Qabs (F2Q g - exact_mean data))%Q) /\
    In mx data /\ Forall (fun x => float_ge mx x = true) data /\
    In mn data /\ Forall (fun x => float_le mn x = true) data /\
    float_ge mx avg = true /\ float_ge avg mn = true.
Proof.
  intros Hne Hfin. destruct data as [|x rest]; [congruence|].
  destruct (py_max_finite x rest w Hfin) as (mx & Emx & Imx & Bmx).
  destruct (py_min_finite x rest w Hfin) as (mn & Emn & Imn & Bmn).
  rewrite Forall_forall in Hfin.
  pose proof (Hfin mx ltac:(apply list_elem_of_In; exact Imx)) as Fmx.
  pose proof (Hfin mn ltac:(apply list_elem_of_In; exact Imn)) as Fmn.
  rewrite <- Forall_forall in Hfin.
  assert (Hb : Forall (fun y => F2Z mn <= F2Z y <= F2Z mx) (x :: rest)).
  { rewrite Forall_forall in *. intros y Hy. split; [apply Bmn|apply Bmx]; exact Hy. }
  destruct (statistics_mean_finite (x :: rest) w mn mx Hne Hfin Fmn Fmx Hb)
    as (Emean & Hr & Hi).
  set (r := round_ne (sum_Z (map F2Z (x :: rest))) (Pos.of_nat (length (x :: rest)))) in *.
  destruct (Z2F_correct false r (round_ne_representable _ _) Hi) as (Va & Fa & Za).
  exists (Z2F false r), mx, mn.
  split.
  { unfold analyze_energy_usage, analyze_energy_usage_try, try_except, bind.
    rewrite Emean, Emx, Emn. reflexivity. }
  split; [split; assumption|].
  split; [intros g Hg; apply rounded_mean_nearest; assumption|].
  destruct Fmx as [Vmx Fmx], Fmn as [Vmn Fmn].
  split; [exact Imx|]. split.
  { rewrite Forall_forall in *. intros y Hy. destruct (Hfin y Hy) as [Vy Fy].
    rewrite float_ge_finite by assumption. apply Z.leb_le. apply Bmx. exact Hy. }
  split; [exact Imn|]. split.
  { rewrite Forall_forall in *. intros y Hy. destruct (Hfin y Hy) as [Vy Fy].
    rewrite float_le_finite by assumption. apply Z.leb_le. apply Bmn. exact Hy. }
  rewrite !float_ge_finite by assumption. rewrite Za. split; apply Z.leb_le; lia.
Qed.

(** C2 (amended): on a non-empty list of finite floats the analyzer logs
    nothing and returns the record of average, maximum and minimum, where
    the average is a float nearest to the exact arithmetic mean, the maximum
    and the minimum are elements of the list that bound every element, and
    [max_usage >= average_usage >= min_usage] holds under Python's [>=]. *)
Theorem analyzer_finite_statistics (data : list spec_float) (w : world) :
  data <> [] -> Forall finite_float data ->
  exists avg mx mn,
    analyze_energy_usage data w =
      (inr (<["min_usage" := mn]>
              (<["max_usage" := mx]> (<["average_usage" := avg]> ∅))), w) /\
    finite_float avg /\
    (forall g, finite_float g ->
       (Qabs (F2Q avg - exact_mean data) <= Qabs (F2Q g - exact_mean data))%Q) /\
    In mx data /\ Forall (fun x => float_ge mx x = true) data /\
    In mn data /\ Forall (fun x => float_le mn x = true) data /\
    float_ge mx avg = true /\ float_ge avg mn = true.
Proof. apply analyze_energy_usage_finite. Qed.

End Analyzer.

Section AnalyzerClaims.

Lemma analyzer_finite_statistics_witness :
  [float_of_int 200; float_of_int 800] <> [] /\
  Forall finite_float [float_of_int 200; float_of_int 800] /\
  exists avg mx mn,
    analyze_energy_usage [float_of_int 200; float_of_int 800] quiet_world =
      (inr (<["min_usage" := mn]>
              (<["max_usage" := mx]> (<["average_usage" := avg]> ∅))), quiet_world) /\
    float_ge mx avg = true /\ float_ge avg mn = true.
Proof.
  assert (Hne : [float_of_int 200; float_of_int 800] <> []) by discriminate.
  assert (Hfin : Forall finite_float [float_of_int 200; float_of_int 800]).
  { repeat (apply List.Forall_cons; [split; vm_compute; reflexivity|]).
    apply List.Forall_nil. }
  split; [exact Hne|]. split; [exact Hfin|].
  destruct (analyzer_finite_statistics _ quiet_world Hne Hfin)
    as (avg & mx & mn & E & _ & _ & _ & _ & _ & _ & H1 & H2).
  exists avg, mx, mn. auto.
Defined.

(** The record the analyzer returns on the one-element list holding a NaN. *)
Lemma analyze_nan (w : world) :
  analyze_energy_usage [S754_nan] w =
  (inr (<["min_usage" := S754_nan]>
          (<["max_usage" := S754_nan]> (<["average_usage" := S754_nan]> ∅))), w).
Proof. reflexivity. Qed.

(** [max_usage >= average_usage >= min_usage] fails on a non-empty list of
    floats: on [[nan]] all three fields are NaN, and NaN >= NaN is false. *)
Lemma analyzer_nan_not_ordered :
  ~ (forall (data : list spec_float) (w : world),
       data <> [] ->
       exists d w', analyze_energy_usage data w = (inr d, w') /\ insights_ordered d).
Proof.
  intros H.
  destruct (H [S754_nan] quiet_world ltac:(discriminate))
    as (d & w' & E & avg & mx & mn & Ha & Hx & Hn & H1 & H2).
  rewrite analyze_nan in E. injection E as <- <-.
  destruct (insights_lookup S754_nan S754_nan S754_nan) as (La & Lx & Ln).
  cbv zeta in La, Lx, Ln.
  rewrite La in Ha. rewrite Lx in Hx. injection Ha as <-. injection Hx as <-.
  discriminate H1.
Qed.

(** C5: on the empty list the analyzer does not raise: [statistics.mean]
    raises [StatisticsError], the handler logs it at error level and the
    empty record is returned; the runner takes an empty record for a failed
    analysis, raises and logs its own error, and logs nothing else. *)
Theorem analyzer_empty_sequence (w : world) :
  analyze_energy_usage [] w =
    (inr ∅,
     logged ERROR "Error analyzing energy usage: "
       (ArgExn (Exn StatisticsError "mean requires at least one data point")) w) /\
  run_on_insights ∅ w = (inl (Exn ValueError "Could not analyze energy data."), w) /\
  run_guarded (run_on_insights ∅) w =
    (inr tt,
     logged ERROR "Error running smart-conserve: "
       (ArgExn (Exn ValueError "Could not analyze energy data.")) w).
Proof. repeat split. Qed.

Lemma analyze_energy_usage_cases (data : list spec_float) (w : world) :
  (exists e w',
     analyze_energy_usage_try data w = (inl e, w') /\
     analyze_energy_usage data w =
       (inr ∅, logged ERROR "Error analyzing energy usage: " (ArgExn e) w')) \/
  (exists avg mx mn w',
     analyze_energy_usage data w =
       (inr (<["min_usage" := mn]>
               (<["max_usage" := mx]> (<["average_usage" := avg]> ∅))), w')).
Proof.
  unfold analyze_energy_usage, try_except.
  destruct (analyze_energy_usage_try data w) as [[e|d] w'] eqn:E.
  - left. exists e, w'. split; reflexivity.
  - right. unfold analyze_energy_usage_try, bind in E.
    destruct (statistics_mean data w) as [[?|avg] w1]; [discriminate|].
    destruct (py_max data w1) as [[?|mx] w2]; [discriminate|].
    destruct (py_min data w2) as [[?|mn] w3]; [discriminate|].
    injection E as <- <-. exists avg, mx, mn, w3. reflexivity.
Qed.

Lemma for_each_info (tips : list string) (w : world) :
  exists w', for_each tips (fun rec => logging_info "- " (ArgStr rec)) w = (inr tt, w') /\
             rng w' = rng w /\ rng_pos w' = rng_pos w /\
             log w' = log w ++ map tip_line tips.
Proof.
  revert w. induction tips as [|t tips IH]; intros w.
  - exists w. cbn. rewrite app_nil_r. auto.
  - destruct (IH (logged INFO "- " (ArgStr t) w)) as (w' & E & H1 & H2 & H3).
    exists w'. split; [exact E|]. rewrite H1, H2, H3.
    cbn [logged rng rng_pos log map]. rewrite <- app_assoc. auto.
Qed.

End AnalyzerClaims.

(** * The generator *)

Section Generator.

Lemma float_of_int_200 : float_of_int 200 = S754_finite false 7036874417766400 (-45).
Proof. vm_compute. reflexivity. Qed.

Lemma float_of_int_800 : float_of_int (1000 - 200) = S754_finite false 7036874417766400 (-43).
Proof. vm_compute. reflexivity. Qed.

(** The largest product [800 * r] for a draw [r < 1] rounds below 800. *)
Lemma round_product_max :
  round_ne (800 * 2 ^ 1074 * ((2 ^ 53 - 1) * 2 ^ 1021)) (2 ^ 1074) = 800 * 2 ^ 1074 - 2 ^ 1031.
Proof. vm_compute. reflexivity. Qed.

Lemma round_sum_min : round_ne (200 * 2 ^ 1074 + 0) 1 = 200 * 2 ^ 1074.
Proof. vm_compute. reflexivity. Qed.

Lemma round_sum_max : round_ne (200 * 2 ^ 1074 + (800 * 2 ^ 1074 - 2 ^ 1031)) 1 = 1000 * 2 ^ 1074 - 2 ^ 1031.
Proof. vm_compute. reflexivity. Qed.

Lemma round_zero (q : positive) : round_ne 0 q = 0.
Proof. reflexivity. Qed.

Lemma random_draw_value (k : Z) :
  let r := binary_normalize prec emax (k mod 2 ^ 53) (- 53) false in
  finite_float r /\ 0 <= F2Z r <= (2 ^ 53 - 1) * 2 ^ 1021.
Proof.
  intros r. unfold r. rewrite binary_normalize_correct by (unfold scale; lia).
  change (- 53 + scale) with 1021. clear r.
  set (r := Z2F false (round_ne (k mod 2 ^ 53 * 2 ^ 1021) 1)).
  pose proof (Z.mod_pos_bound k (2 ^ 53) ltac:(lia)) as Hk.
  assert (Hr : representable (k mod 2 ^ 53 * 2 ^ 1021) = true)
    by (apply representable_mul_pow2; lia).
  assert (Hi : in_range (k mod 2 ^ 53 * 2 ^ 1021) = true).
  { unfold in_range, emax, scale. apply Z.ltb_lt.
    change (2 ^ (1024 + 1074)) with (2 ^ 53 * 2 ^ 1021 * 2 ^ 1024).
    rewrite Z.abs_eq by lia. nia. }
  assert (Hx : round_ne (k mod 2 ^ 53 * 2 ^ 1021) 1 = k mod 2 ^ 53 * 2 ^ 1021).
  { rewrite <- (round_ne_exact 1 _ Hr) at 2. f_equal. lia. }
  destruct (Z2F_correct false _ Hr Hi) as (V & F & E).
  unfold r. rewrite Hx. split; [split; assumption|]. rewrite E. nia.
Qed.


Lemma F2Z_800 : F2Z (S754_finite false 7036874417766400 (-43)) = 800 * 2 ^ 1074.
Proof. vm_compute. reflexivity. Qed.

Lemma F2Z_200 : F2Z (S754_finite false 7036874417766400 (-45)) = 200 * 2 ^ 1074.
Proof. vm_compute. reflexivity. Qed.

Lemma in_range_bounded (n hi : Z) :
  0 <= n <= hi -> hi < 2 ^ 2098 -> in_range n = true.
Proof. intros H Hhi. unfold in_range, emax, scale. apply Z.ltb_lt.
  change (2 ^ (1024 + 1074)) with (2 ^ 2098). lia. Qed.

(** [800 * r] for a draw [r]. *)
Lemma scaled_draw_value (r : spec_float) :
  finite_float r -> 0 <= F2Z r <= (2 ^ 53 - 1) * 2 ^ 1021 ->
  let t := float_mul (float_of_int (1000 - 200)) r in
  finite_float t /\ 0 <= F2Z t <= 800 * 2 ^ 1074 - 2 ^ 1031.
Proof.
  intros [Vr Fr] Hr t. unfold t. rewrite float_of_int_800.
  destruct r as [s|s| |s m e]; try discriminate.
  - cbn. split; [split; reflexivity|]. lia.
  - unfold float_mul. rewrite SFmul_finite by (assumption || reflexivity). rewrite F2Z_800.
    set (p := 800 * 2 ^ 1074 * F2Z (S754_finite s m e)).
    assert (Hlo : 0 <= round_ne p (2 ^ 1074)).
    { rewrite <- (round_zero (2 ^ 1074)). apply round_ne_mono. unfold p. nia. }
    assert (Hhi : round_ne p (2 ^ 1074) <= 800 * 2 ^ 1074 - 2 ^ 1031).
    { rewrite <- round_product_max. apply round_ne_mono. unfold p.
      apply Z.mul_le_mono_nonneg_l; lia. }
    assert (Hi : in_range (round_ne p (2 ^ 1074)) = true).
    { apply (in_range_bounded _ (800 * 2 ^ 1074 - 2 ^ 1031)); [lia|]. vm_compute. reflexivity. }
    destruct (Z2F_correct (xorb false s) _ (round_ne_representable p (2 ^ 1074)) Hi)
      as (V & F & E).
    split; [split; assumption|]. rewrite E. lia.
Qed.

(** [200 + t] for a scaled draw [t]. *)
Lemma shifted_draw_value (t : spec_float) :
  finite_float t -> 0 <= F2Z t <= 800 * 2 ^ 1074 - 2 ^ 1031 ->
  let v := float_add (float_of_int 200) t in
  finite_float v /\ 200 * 2 ^ 1074 <= F2Z v <= 1000 * 2 ^ 1074 - 2 ^ 1031.
Proof.
  intros [Vt Ft] Ht v. unfold v. rewrite float_of_int_200.
  destruct t as [s|s| |s m e]; try discriminate.
  - unfold float_add. cbn [SFadd]. rewrite F2Z_200.
    split; [split; reflexivity|]. lia.
  - unfold float_add. rewrite SFadd_finite by (assumption || reflexivity). rewrite F2Z_200.
    set (p := 200 * 2 ^ 1074 + F2Z (S754_finite s m e)).
    assert (Hlo : 200 * 2 ^ 1074 <= round_ne p 1).
    { rewrite <- round_sum_min. apply round_ne_mono. unfold p. lia. }
    assert (Hhi : round_ne p 1 <= 1000 * 2 ^ 1074 - 2 ^ 1031).
    { rewrite <- round_sum_max. apply round_ne_mono. unfold p. lia. }
    assert (Hi : in_range (round_ne p 1) = true).
    { apply (in_range_bounded _ (1000 * 2 ^ 1074 - 2 ^ 1031)); [lia|]. vm_compute. reflexivity. }
    destruct (Z2F_correct false _ (round_ne_representable p 1) Hi) as (V & F & E).
    split; [split; assumption|]. rewrite E. lia.
Qed.

Lemma reading_of_bounds (v : spec_float) :
  finite_float v -> 200 * 2 ^ 1074 <= F2Z v <= 1000 * 2 ^ 1074 - 2 ^ 1031 -> reading v.
Proof.
  intros Hf [Hlo Hhi]. split; [exact Hf|].
  unfold Qle, Qlt, F2Q, inject_Z. cbn [Qnum Qden].
  change (Z.pos (2 ^ 1074)) with (2 ^ 1074). rewrite !Z.mul_1_r.
  assert (0 < 2 ^ 1031) by (apply Z.pow_pos_nonneg; lia). lia.
Qed.

(** The extreme draws: [k = 0] gives 200, [k = 2^53 - 1] gives the float
    just below 1000. *)
Example smallest_reading :
  float_add (float_of_int 200)
    (float_mul (float_of_int (1000 - 200)) (binary_normalize prec emax 0 (- 53) false)) =
  float_of_int 200.
Proof. vm_compute. reflexivity. Qed.

Example largest_reading :
  float_add (float_of_int 200)
    (float_mul (float_of_int (1000 - 200))
       (binary_normalize prec emax (2 ^ 53 - 1) (- 53) false)) =
  S754_finite false (1000 * 2 ^ 43 - 1) (- 43).
Proof. vm_compute. reflexivity. Qed.

Lemma random_uniform_reading (w : world) :
  exists v, random_uniform 200 1000 w =
              (inr v, World (rng w) (Datatypes.S (rng_pos w)) (log w)) /\
            reading v.
Proof.
  exists (float_add (float_of_int 200)
            (float_mul (float_of_int (1000 - 200))
               (binary_normalize prec emax (rng w (rng_pos w) mod 2 ^ 53) (- 53) false))).
  split; [reflexivity|].
  destruct (random_draw_value (rng w (rng_pos w))) as [Fr Hr].
  destruct (scaled_draw_value _ Fr Hr) as [Ft Ht].
  destruct (shifted_draw_value _ Ft Ht) as [Fv Hv].
  apply reading_of_bounds; assumption.
Qed.

Lemma list_comp_total {A} (P : A -> Prop) (body : M world A) (n : nat) :
  (forall w, exists a w', body w = (inr a, w') /\ P a /\ log w' = log w) ->
  forall w, exists l w',
    list_comp n body w = (inr l, w') /\ length l = n /\ Forall P l /\ log w' = log w.
Proof.
  intros Hbody. induction n as [|n IH]; intros w.
  - exists [], w. repeat split. constructor.
  - destruct (Hbody w) as (a & w1 & E1 & Pa & L1).
    destruct (IH w1) as (l & w2 & E2 & Hlen & Hall & L2).
    exists (a :: l), w2. cbn [list_comp]. unfold bind. rewrite E1, E2.
    repeat split; [cbn; lia|constructor; assumption|congruence].
Qed.

Lemma generate_mock_data_try_readings (w : world) :
  exists data w',
    generate_mock_data_try (random_uniform 200 1000) w = (inr data, w') /\
    length data = 168%nat /\ Forall reading data /\ log w' = log w.
Proof.
  destruct (list_comp_total reading (random_uniform 200 1000) (24 * 7)) with (w := w)
    as (l & w' & E & Hlen & Hall & Hlog).
  { intros w1. destruct (random_uniform_reading w1) as (v & E & Hv).
    eexists _, _. split; [exact E|]. split; [exact Hv|reflexivity]. }
  exists l, w'. unfold generate_mock_data_try, bind. rewrite E. auto.
Qed.

Lemma generate_mock_data_readings (w : world) :
  exists data w',
    generate_mock_data w = (inr data, w') /\
    length data = 168%nat /\ Forall reading data /\ log w' = log w.
Proof.
  destruct (generate_mock_data_try_readings w) as (l & w' & E & H).
  exists l, w'. unfold generate_mock_data, generate_mock_data_with, try_except.
  rewrite E. auto.
Qed.

End Generator.

(** * The runner and the stages together *)

Section Runner.

Lemma reading_finite (v : spec_float) : reading v -> finite_float v.
Proof. intros [H _]. exact H. Qed.

(** A reading satisfies Python's [200 <= v < 1000]. *)
Lemma reading_compare (v : spec_float) :
  reading v ->
  float_ge v (float_of_int 200) = true /\ float_lt v (float_of_int 1000) = true.
Proof.
  intros ([Vv Fv] & Hlo & Hhi).
  unfold Qle, Qlt, F2Q, inject_Z in Hlo, Hhi. cbn [Qnum Qden] in Hlo, Hhi.
  change (Z.pos (2 ^ 1074)) with (2 ^ 1074) in Hlo, Hhi. rewrite !Z.mul_1_r in Hlo, Hhi.
  assert (H200 : valid (float_of_int 200) = true /\ is_finite (float_of_int 200) = true /\
                 F2Z (float_of_int 200) = 200 * 2 ^ 1074)
    by (repeat apply conj; vm_compute; reflexivity).
  assert (H1000 : valid (float_of_int 1000) = true /\ is_finite (float_of_int 1000) = true /\
                  F2Z (float_of_int 1000) = 1000 * 2 ^ 1074)
    by (repeat apply conj; vm_compute; reflexivity).
  destruct H200 as (V2 & F2 & E2), H1000 as (V1 & F1 & E1).
  rewrite float_ge_finite, float_lt_finite by assumption.
  rewrite E2, E1. split; [apply Z.leb_le|apply Z.ltb_lt]; assumption.
Qed.

Lemma select_tips_nonempty (c750 c500 : option comparison) :
  select_tips c750 c500 <> [] /\ Forall (fun t => In t all_tips) (select_tips c750 c500).
Proof.
  destruct c750 as [[]|], c500 as [[]|]; (split; [discriminate|]);
    repeat (apply List.Forall_cons || apply List.Forall_nil);
    unfold all_tips; simpl; auto 10.
Qed.

(** The runner after a successful analysis: the summary line, the header
    line and one line per tip. *)
Lemma run_on_insights_ok (d : gmap string spec_float) (avg : spec_float) (w : world) :
  d !! "average_usage" = Some avg ->
  exists w',
    run_on_insights d w = (inr tt, w') /\
    log w' = log w ++
      [LogRecord INFO "Energy Usage Insights: " (ArgDict d);
       LogRecord INFO "Energy Conservation Recommendations:" ArgNone] ++
      map tip_line (select_tips (SFcompare avg (float_of_int 750))
                                (SFcompare avg (float_of_int 500))).
Proof.
  intros Hd. unfold run_on_insights.
  destruct (Nat.eqb (size d) 0) eqn:Hs.
  { apply Nat.eqb_eq in Hs. apply map_size_empty_iff in Hs. subst d.
    rewrite lookup_empty in Hd. discriminate. }
  unfold bind, logging_info, logging_emit, dict_getitem. rewrite Hd. unfold ret.
  rewrite provide_recommendations_float.
  set (tips := select_tips _ _).
  destruct (for_each_info tips
              (logged INFO "Energy Conservation Recommendations:" ArgNone
                 (logged INFO "Energy Usage Insights: " (ArgDict d) w)))
    as (w' & E & _ & _ & Hlog).
  exists w'. split; [exact E|]. rewrite Hlog. cbn [logged log].
  rewrite <- !app_assoc. reflexivity.
Qed.

(** A whole run: it returns normally and logs the summary, the header and
    the tips. *)
Lemma run_smart_conserve_log (w : world) :
  exists w' d tips,
    run_smart_conserve w = (inr tt, w') /\
    tips <> [] /\ Forall (fun t => In t all_tips) tips /\
    log w' = log w ++
      [LogRecord INFO "Energy Usage Insights: " (ArgDict d);
       LogRecord INFO "Energy Conservation Recommendations:" ArgNone] ++
      map tip_line tips.
Proof.
  destruct (generate_mock_data_readings w) as (data & w1 & Eg & Hlen & Hall & Hlog1).
  assert (Hne : data <> []) by (intros ->; discriminate Hlen).
  assert (Hfin : Forall finite_float data).
  { eapply Forall_impl; [exact Hall|]. apply reading_finite. }
  destruct (analyze_energy_usage_finite data w1 Hne Hfin)
    as (avg & mx & mn & Ea & _).
  set (d := <["min_usage" := mn]> (<["max_usage" := mx]> (<["average_usage" := avg]> ∅)))
    in Ea.
  destruct (insights_lookup avg mx mn) as (La & _ & _). cbv zeta in La. fold d in La.
  destruct (run_on_insights_ok d avg w1 La) as (w2 & Er & Hlog2).
  destruct (select_tips_nonempty (SFcompare avg (float_of_int 750))
              (SFcompare avg (float_of_int 500))) as [Hn Ht].
  exists w2, d, (select_tips (SFcompare avg (float_of_int 750))
                             (SFcompare avg (float_of_int 500))).
  split; [|split; [exact Hn|split; [exact Ht|]]].
  - unfold run_smart_conserve, run_guarded, run_smart_conserve_try, try_except, bind.
    rewrite Eg. unfold run_on_data. destruct data as [|x rest]; [congruence|].
    unfold bind. rewrite Ea, Er. reflexivity.
  - rewrite Hlog2, Hlog1. reflexivity.
Qed.


(** C4: in every world the generator returns a list of exactly 168 values,
    each a finite float [v] with [200 <= v < 1000], as exact values and
    under Python's comparisons. *)
Theorem generator_length_and_range (w : world) :
  exists data w',
    generate_mock_data w = (inr data, w') /\
    length data = 168%nat /\
    Forall (fun v =>
              finite_float v /\
              (inject_Z 200 <= F2Q v)%Q /\ (F2Q v < inject_Z 1000)%Q /\
              float_ge v (float_of_int 200) = true /\
              float_lt v (float_of_int 1000) = true) data.
Proof.
  destruct (generate_mock_data_readings w) as (data & w' & E & Hlen & Hall & _).
  exists data, w'. split; [exact E|]. split; [exact Hlen|].
  eapply Forall_impl; [exact Hall|].
  intros v Hv. destruct (reading_compare v Hv) as [Hge Hlt].
  destruct Hv as (Hf & Hlo & Hhi). auto.
Qed.

(** C9: the generator's handler is never entered: the comprehension over
    [range(24 * 7)] returns a list in every world, so the generator returns
    a non-empty list and logs nothing, and a run logs only info-level
    lines, the error for missing energy data not being among them. *)
Theorem generator_failure_unreachable (w : world) :
  (exists data w', generate_mock_data_try (random_uniform 200 1000) w = (inr data, w')) /\
  (exists data w',
     generate_mock_data w = (inr data, w') /\ data <> [] /\ log w' = log w) /\
  (exists w' new,
     run_smart_conserve w = (inr tt, w') /\
     log w' = log w ++ new /\
     Forall (fun r => lr_level r = INFO) new /\
     ~ In (LogRecord ERROR "Error running smart-conserve: "
             (ArgExn (Exn ValueError "No energy data available."))) new).
Proof.
  destruct (generate_mock_data_readings w) as (data & w1 & Eg & Hlen & _ & Hlog).
  split; [|split].
  - destruct (generate_mock_data_try_readings w) as (l & w2 & E & _). eauto.
  - exists data, w1. split; [exact Eg|]. split; [|exact Hlog].
    intros ->. discriminate Hlen.
  - destruct (run_smart_conserve_log w) as (w' & d & tips & Er & _ & _ & Hl).
    assert (Hinfo : Forall (fun r => lr_level r = INFO)
                      ([LogRecord INFO "Energy Usage Insights: " (ArgDict d);
                        LogRecord INFO "Energy Conservation Recommendations:" ArgNone] ++
                       map tip_line tips)).
    { apply Forall_app. split.
      - repeat (apply List.Forall_cons; [reflexivity|]). apply List.Forall_nil.
      - apply Forall_map. apply Forall_forall. intros; reflexivity. }
    eexists w', _. split; [exact Er|]. split; [exact Hl|]. split; [exact Hinfo|].
    intros Hin. rewrite List.Forall_forall in Hinfo. apply Hinfo in Hin. discriminate Hin.
Qed.

(** C3: whatever the body of the runner's [try] does, no exception leaves
    the runner: an exception raised by the body is logged at error level
    and the run ends normally; and a run of the pipeline ends normally
    having logged the insights summary, the header and a non-empty list of
    tips. *)
Theorem runner_never_raises (w : world) :
  (forall body : M world unit,
     exists w', run_guarded body w = (inr tt, w') /\
       forall e w1, body w = (inl e, w1) ->
         w' = logged ERROR "Error running smart-conserve: " (ArgExn e) w1) /\
  (exists w' insights tips,
     run_smart_conserve w = (inr tt, w') /\
     tips <> [] /\
     log w' = log w ++
       [LogRecord INFO "Energy Usage Insights: " (ArgDict insights);
        LogRecord INFO "Energy Conservation Recommendations:" ArgNone] ++
       map tip_line tips).
Proof.
  split.
  - intros body. unfold run_guarded, try_except.
    destruct (body w) as [[e|[]] w1].
    + eexists. split; [reflexivity|]. intros e' w1' H. injection H as <- <-. reflexivity.
    + exists w1. split; [reflexivity|]. intros e' w1' H. discriminate H.
  - destruct (run_smart_conserve_log w) as (w' & d & tips & Er & Hn & _ & Hl).
    exists w', d, tips. auto.
Qed.

(** C6: in each stage an exception raised inside the [try] is caught,
    logged at error level, and the stage returns its empty value: the empty
    list from the generator (whatever the drawing call raises) and from the
    recommender (whatever value it is given), the empty record from the
    analyzer. *)
Theorem stages_swallow_exceptions :
  (forall (draw : M world spec_float) (w w' : world) (e : exn),
     generate_mock_data_try draw w = (inl e, w') ->
     generate_mock_data_with draw w =
       (inr [], logged ERROR "Error generating mock data: " (ArgExn e) w')) /\
  (forall (data : list spec_float) (w w' : world) (e : exn),
     analyze_energy_usage_try data w = (inl e, w') ->
     analyze_energy_usage data w =
       (inr ∅, logged ERROR "Error analyzing energy usage: " (ArgExn e) w')) /\
  (forall (average_usage : pyval) (w w' : world) (e : exn) (partial : list string),
     provide_recommendations_try average_usage ([], w) = (inl e, (partial, w')) ->
     provide_recommendations average_usage w =
       (inr [], logged ERROR "Error providing recommendations: " (ArgExn e) w')).
Proof.
  split; [|split].
  - intros draw w w' e H. unfold generate_mock_data_with, try_except. rewrite H. reflexivity.
  - intros data w w' e H. unfold analyze_energy_usage, try_except. rewrite H. reflexivity.
  - intros v w w' e partial H.
    assert (Hp : partial = []).
    { revert H. unfold provide_recommendations_try, bind, py_gt_int, py_int_lt, py_le_int.
      destruct (compare_with_int v 750) as [[[]|]|];
        destruct (compare_with_int v 500) as [[[]|]|];
        cbn; intros H; try discriminate H; injection H as _ <- _; reflexivity. }
    subst partial.
    unfold provide_recommendations, with_local, bind, try_except. rewrite H. reflexivity.
Qed.

Lemma stages_swallow_exceptions_witness :
  generate_mock_data_with (raise (Exn RuntimeError "no entropy")) quiet_world =
    (inr [], logged ERROR "Error generating mock data: "
               (ArgExn (Exn RuntimeError "no entropy")) quiet_world) /\
  analyze_energy_usage [] quiet_world =
    (inr ∅, logged ERROR "Error analyzing energy usage: "
              (ArgExn (Exn StatisticsError "mean requires at least one data point"))
              quiet_world) /\
  provide_recommendations PyNone quiet_world =
    (inr [], logged ERROR "Error providing recommendations: "
               (ArgExn (not_supported ">" "NoneType" "int")) quiet_world).
Proof.
  destruct stages_swallow_exceptions as (Hg & Ha & Hr).
  split; [|split].
  - apply Hg. reflexivity.
  - apply Ha. reflexivity.
  - apply (Hr PyNone quiet_world quiet_world _ []). reflexivity.
Defined.

(** C10: a record returned by the analyzer that passes the runner's
    emptiness test has exactly the keys "average_usage", "max_usage" and
    "min_usage" (and none of "average", "max", "min"), so the runner's
    lookup of "average_usage" returns a value and the rest of the run raises
    nothing. *)
Theorem analyzer_record_keys (data : list spec_float) (w w' : world)
    (d : gmap string spec_float) :
  analyze_energy_usage data w = (inr d, w') ->
  Nat.eqb (size d) 0 = false ->
  dom d = {["average_usage"; "max_usage"; "min_usage"]} /\
  d !! "average" = None /\ d !! "max" = None /\ d !! "min" = None /\
  (exists avg, forall w2 : world, dict_getitem d "average_usage" w2 = (inr avg, w2)) /\
  (forall w2, exists w3, run_on_insights d w2 = (inr tt, w3)).
Proof.
  intros E Hs.
  destruct (analyze_energy_usage_cases data w) as [(e & w1 & _ & E')|(avg & mx & mn & w1 & E')];
    rewrite E' in E; injection E as <- <-.
  { discriminate Hs. }
  destruct (insights_lookup avg mx mn) as (La & _ & _). cbv zeta in La.
  split; [|split; [|split; [|split; [|split]]]].
  - rewrite !dom_insert_L, dom_empty_L. set_solver.
  - rewrite !lookup_insert_ne by discriminate. apply lookup_empty.
  - rewrite !lookup_insert_ne by discriminate. apply lookup_empty.
  - rewrite !lookup_insert_ne by discriminate. apply lookup_empty.
  - exists avg. intros w2. unfold dict_getitem. rewrite La. reflexivity.
  - intros w2. destruct (run_on_insights_ok _ avg w2 La) as (w3 & Er & _). eauto.
Qed.

Lemma analyzer_record_keys_witness :
  let d : gmap string spec_float :=
    <["min_usage" := float_of_int 200]>
      (<["max_usage" := float_of_int 200]> (<["average_usage" := float_of_int 200]> ∅)) in
  analyze_energy_usage [float_of_int 200] quiet_world = (inr d, quiet_world) /\
  Nat.eqb (size d) 0 = false /\
  dom d = {["average_usage"; "max_usage"; "min_usage"]}.
Proof.
  intros d.
  assert (E : analyze_energy_usage [float_of_int 200] quiet_world = (inr d, quiet_world))
    by (vm_compute; reflexivity).
  assert (Hs : Nat.eqb (size d) 0 = false) by (vm_compute; reflexivity).
  split; [exact E|]. split; [exact Hs|].
  exact (proj1 (analyzer_record_keys _ _ _ _ E Hs)).
Defined.

End Runner.

(** * Beyond the claims: the generator *)

Section GeneratorCoverage.

Lemma random_uniform_value (a b : Z) (w : world) :
  random_uniform a b w =
  (inr (uniform_value a b (rng w (rng_pos w))),
   World (rng w) (Datatypes.S (rng_pos w)) (log w)).
Proof. reflexivity. Qed.

(** A comprehension over [random.uniform] reads the next [n] draws in
    order. *)
Lemma list_comp_uniform (a b : Z) (n : nat) (w : world) :
  list_comp n (random_uniform a b) w =
  (inr (map (fun i => uniform_value a b (rng w (rng_pos w + i)%nat)) (seq 0 n)),
   World (rng w) (rng_pos w + n)%nat (log w)).
Proof.
  revert w. induction n as [|n IH]; intros w.
  - cbn [list_comp seq map]. unfold ret. rewrite Nat.add_0_r. destruct w; reflexivity.
  - cbn [list_comp]. unfold bind. rewrite random_uniform_value, IH. unfold ret.
    cbn [rng rng_pos log seq map]. rewrite Nat.add_0_r.
    rewrite <- seq_shift, map_map.
    f_equal; [f_equal; f_equal|f_equal; lia].
    apply map_ext. intros i. f_equal. f_equal. lia.
Qed.

(** A comprehension that returns, returns one element per iteration. *)
Lemma list_comp_length {S A} (body : M S A) (n : nat) (s s' : S) (l : list A) :
  list_comp n body s = (inr l, s') -> length l = n.
Proof.
  revert s s' l. induction n as [|n IH]; intros s s' l; cbn [list_comp]; unfold bind, ret.
  - intros H. injection H as <- _. reflexivity.
  - destruct (body s) as [[e|x] s1]; [discriminate|].
    destruct (list_comp n body s1) as [[e|xs] s2] eqn:E; [discriminate|].
    intros H. injection H as <- _. cbn [length]. f_equal. exact (IH _ _ _ E).
Qed.

(** X1: the generator reads exactly the next 168 draws of the random
    source, in order, one per reading: the i-th reading is the value
    [random.uniform(200, 1000)] makes of the i-th draw; the cursor of the
    source advances by 168 and nothing is logged. *)
Theorem generator_reads_168_draws (w : world) :
  generate_mock_data w =
  (inr (map (fun i => uniform_value 200 1000 (rng w (rng_pos w + i)%nat)) (seq 0 (24 * 7))),
   World (rng w) (rng_pos w + 24 * 7)%nat (log w)).
Proof.
  unfold generate_mock_data, generate_mock_data_with, generate_mock_data_try,
    try_except, bind.
  rewrite list_comp_uniform. reflexivity.
Qed.

(** X2: whatever the drawing call does, the generator never raises and
    never returns part of a series: it returns either 168 readings, having
    logged nothing itself, or the empty list after logging one error line. *)
Theorem generator_all_or_nothing (draw : M world spec_float) (w : world) :
  exists data w',
    generate_mock_data_with draw w = (inr data, w') /\
    ((length data = 168%nat /\ generate_mock_data_try draw w = (inr data, w')) \/
     (data = [] /\ exists e w1,
        generate_mock_data_try draw w = (inl e, w1) /\
        w' = logged ERROR "Error generating mock data: " (ArgExn e) w1)).
Proof.
  unfold generate_mock_data_with, try_except.
  destruct (generate_mock_data_try draw w) as [[e|data] w1] eqn:E.
  - exists [], (logged ERROR "Error generating mock data: " (ArgExn e) w1).
    split; [reflexivity|]. right. split; [reflexivity|]. exists e, w1. auto.
  - exists data, w1. split; [reflexivity|]. left. split; [|reflexivity].
    unfold generate_mock_data_try, bind in E.
    destruct (list_comp (24 * 7) draw w) as [[e|l] w2] eqn:El; [discriminate|].
    unfold ret in E. injection E as <- <-. exact (list_comp_length _ _ _ _ _ El).
Qed.

End GeneratorCoverage.

(** * Beyond the claims: the analyzer *)

Section AnalyzerCoverage.

Lemma fold_pick_in {A} (c : A -> A -> bool) (rest : list A) (x : A) :
  In (fold_left (fun best item => if c item best then item else best) rest x) (x :: rest).
Proof.
  revert x. induction rest as [|y rest IH]; intros x; cbn [fold_left].
  - left. reflexivity.
  - destruct (IH (if c y x then y else x)) as [H|H].
    + rewrite <- H. destruct (c y x); [right; left|left]; reflexivity.
    + right. right. exact H.
Qed.

Lemma py_max_in {S} (x : spec_float) (rest : list spec_float) (s : S) :
  exists mx, py_max (x :: rest) s = (inr mx, s) /\ In mx (x :: rest).
Proof. eexists. split; [reflexivity|]. apply fold_pick_in. Qed.

Lemma py_min_in {S} (x : spec_float) (rest : list spec_float) (s : S) :
  exists mn, py_min (x :: rest) s = (inr mn, s) /\ In mn (x :: rest).
Proof. eexists. split; [reflexivity|]. apply fold_pick_in. Qed.

Lemma filter_nonfinite_nil_inv (data : list spec_float) :
  List.filter (fun x => negb (is_finite x)) data = [] ->
  Forall (fun x => is_finite x = true) data.
Proof.
  induction data as [|x data IH]; cbn [List.filter]; intros H; [constructor|].
  destruct (is_finite x) eqn:E; cbn [negb] in H; [|discriminate].
  constructor; auto.
Qed.

(** [statistics.mean] does not raise on a non-empty list of floats. *)
Lemma statistics_mean_returns {S} (data : list spec_float) (s : S) :
  data <> [] -> Forall (fun x => valid x = true) data ->
  exists avg, statistics_mean data s = (inr avg, s).
Proof.
  intros Hne Hv.
  destruct (List.filter (fun x => negb (is_finite x)) data) as [|y ys] eqn:Ef.
  - assert (Hfin : Forall finite_float data).
    { apply filter_nonfinite_nil_inv in Ef. rewrite List.Forall_forall in *.
      intros x Hx. split; auto. }
    destruct data as [|x rest]; [congruence|].
    destruct (py_max_finite x rest s Hfin) as (mx & _ & Imx & Bmx).
    destruct (py_min_finite x rest s Hfin) as (mn & _ & Imn & Bmn).
    rewrite List.Forall_forall in Hfin.
    pose proof (Hfin mx Imx) as Fmx. pose proof (Hfin mn Imn) as Fmn.
    rewrite <- List.Forall_forall in Hfin.
    assert (Hb : Forall (fun y => F2Z mn <= F2Z y <= F2Z mx) (x :: rest)).
    { rewrite List.Forall_forall in *. intros y Hy. split; [apply Bmn|apply Bmx]; exact Hy. }
    destruct (statistics_mean_finite (x :: rest) s mn mx Hne Hfin Fmn Fmx Hb) as (E & _).
    eauto.
  - destruct data as [|x rest]; [congruence|].
    unfold statistics_mean. rewrite Ef. eauto.
Qed.

(** The sum of the non-finite values is a NaN as soon as one of them is. *)
Lemma fold_SFadd_nan_acc (l : list spec_float) :
  fold_left (SFadd prec emax) l S754_nan = S754_nan.
Proof. induction l as [|y l IH]; [reflexivity|]. cbn [fold_left]. exact IH. Qed.

Lemma fold_SFadd_nan (l : list spec_float) (acc : spec_float) :
  In S754_nan l -> fold_left (SFadd prec emax) l acc = S754_nan.
Proof.
  revert acc. induction l as [|y l IH]; intros acc H; [contradiction|].
  destruct H as [H|H]; cbn [fold_left].
  - subst y. replace (SFadd prec emax acc S754_nan) with S754_nan by (destruct acc; reflexivity).
    apply fold_SFadd_nan_acc.
  - apply IH. exact H.
Qed.

Lemma in_filter_nan (data : list spec_float) :
  In S754_nan data -> In S754_nan (List.filter (fun x => negb (is_finite x)) data).
Proof. intros H. apply filter_In. split; [exact H|reflexivity]. Qed.

Lemma statistics_mean_nan {S} (data : list spec_float) (s : S) :
  In S754_nan data -> statistics_mean data s = (inr S754_nan, s).
Proof.
  intros Hin. pose proof (in_filter_nan data Hin) as Hf.
  destruct data as [|x rest]; [contradiction|].
  unfold statistics_mean.
  destruct (List.filter (fun x => negb (is_finite x)) (x :: rest)) as [|y ys]; [contradiction|].
  destruct Hf as [->|Hf].
  - rewrite fold_SFadd_nan_acc. reflexivity.
  - rewrite (fold_SFadd_nan ys y Hf). reflexivity.
Qed.

(** The analyzer on a non-empty list of floats: no exception, no log line. *)
Lemma analyze_energy_usage_returns (data : list spec_float) (w : world) :
  data <> [] -> Forall (fun x => valid x = true) data ->
  exists avg mx mn,
    analyze_energy_usage data w = (inr (insights_record avg mx mn), w) /\
    statistics_mean data w = (inr avg, w) /\
    In mx data /\ In mn data.
Proof.
  intros Hne Hv. destruct (statistics_mean_returns data w Hne Hv) as (avg & Ea).
  destruct data as [|x rest]; [congruence|].
  destruct (py_max_in x rest w) as (mx & Emx & Imx).
  destruct (py_min_in x rest w) as (mn & Emn & Imn).
  exists avg, mx, mn. split; [|auto].
  unfold analyze_energy_usage, analyze_energy_usage_try, try_except, bind.
  rewrite Ea, Emx, Emn. reflexivity.
Qed.

Lemma insights_record_lookup (avg mx mn : spec_float) :
  insights_record avg mx mn !! "average_usage" = Some avg /\
  insights_record avg mx mn !! "max_usage" = Some mx /\
  insights_record avg mx mn !! "min_usage" = Some mn.
Proof. exact (insights_lookup avg mx mn). Qed.

Lemma insights_record_nonempty (avg mx mn : spec_float) : insights_record avg mx mn <> ∅.
Proof.
  intros H. destruct (insights_record_lookup avg mx mn) as [L _].
  rewrite H, lookup_empty in L. discriminate.
Qed.

(** X3: on a list of floats the empty record is an unambiguous failure
    signal: the analyzer returns it exactly when the list is empty; on a
    non-empty list, whatever it holds (NaN and infinities included), the
    analyzer logs nothing, changes nothing, and its maximum and minimum are
    elements of the list. *)
Theorem analyzer_empty_record_iff_empty_input (data : list spec_float) (w : world) :
  Forall (fun x => valid x = true) data ->
  exists d w',
    analyze_energy_usage data w = (inr d, w') /\
    (d = ∅ <-> data = []) /\
    (data <> [] ->
     w' = w /\
     exists avg mx mn, d = insights_record avg mx mn /\ In mx data /\ In mn data).
Proof.
  intros Hv. destruct data as [|x rest].
  - eexists _, _. split; [reflexivity|]. split; [tauto|]. intros H. congruence.
  - destruct (analyze_energy_usage_returns (x :: rest) w ltac:(discriminate) Hv)
      as (avg & mx & mn & E & _ & Imx & Imn).
    eexists _, _. split; [exact E|]. split.
    + split; [intros H; exfalso; exact (insights_record_nonempty _ _ _ H)|discriminate].
    + intros _. split; [reflexivity|]. exists avg, mx, mn. auto.
Qed.

Lemma analyzer_empty_record_iff_empty_input_witness :
  Forall (fun x => valid x = true) [S754_nan; float_of_int 300] /\
  exists d w',
    analyze_energy_usage [S754_nan; float_of_int 300] quiet_world = (inr d, w') /\
    (d = ∅ <-> [S754_nan; float_of_int 300] = []).
Proof.
  assert (Hv : Forall (fun x => valid x = true) [S754_nan; float_of_int 300]).
  { repeat (apply List.Forall_cons; [vm_compute; reflexivity|]). apply List.Forall_nil. }
  split; [exact Hv|].
  destruct (analyzer_empty_record_iff_empty_input _ quiet_world Hv) as (d & w' & E & Hiff & _).
  exists d, w'. auto.
Defined.

End AnalyzerCoverage.

Section AnalyzerOrder.

(** The analyzer on a non-empty list of finite floats, with the average
    spelled out. *)
Lemma analyze_energy_usage_finite_explicit (data : list spec_float) (w : world) :
  data <> [] -> Forall finite_float data ->
  let r := round_ne (sum_Z (map F2Z data)) (Pos.of_nat (length data)) in
  exists mx mn,
    analyze_energy_usage data w = (inr (insights_record (Z2F false r) mx mn), w) /\
    In mx data /\ In mn data /\
    Forall (fun y => F2Z mn <= F2Z y <= F2Z mx) data /\
    F2Z mn <= r <= F2Z mx /\
    finite_float (Z2F false r) /\ F2Z (Z2F false r) = r.
Proof.
  intros Hne Hfin r. destruct data as [|x rest]; [congruence|].
  destruct (py_max_finite x rest w Hfin) as (mx & Emx & Imx & Bmx).
  destruct (py_min_finite x rest w Hfin) as (mn & Emn & Imn & Bmn).
  rewrite List.Forall_forall in Hfin.
  pose proof (Hfin mx Imx) as Fmx. pose proof (Hfin mn Imn) as Fmn.
  rewrite <- List.Forall_forall in Hfin.
  assert (Hb : Forall (fun y => F2Z mn <= F2Z y <= F2Z mx) (x :: rest)).
  { rewrite List.Forall_forall in *. intros y Hy. split; [apply Bmn|apply Bmx]; exact Hy. }
  destruct (statistics_mean_finite (x :: rest) w mn mx Hne Hfin Fmn Fmx Hb)
    as (Emean & Hr & Hi).
  fold r in Emean, Hr, Hi.
  destruct (Z2F_correct false r (round_ne_representable _ _) Hi) as (Va & Fa & Za).
  exists mx, mn. split.
  { unfold analyze_energy_usage, analyze_energy_usage_try, try_except, bind.
    rewrite Emean, Emx, Emn. reflexivity. }
  repeat split; try assumption; lia.
Qed.

Lemma sum_Z_permutation (l l' : list Z) : Permutation l l' -> sum_Z l = sum_Z l'.
Proof.
  induction 1 as [|x l l' _ IH|x y l|l l' l'' _ IH1 _ IH2]; cbn [sum_Z fold_right].
  - reflexivity.
  - fold (sum_Z l) (sum_Z l'). lia.
  - lia.
  - congruence.
Qed.

(** X4: the insights do not depend on the order of the readings: for two
    non-empty lists of finite floats that are permutations of each other
    the analyzer returns the very same average (the mean is computed
    exactly before it is rounded), and maxima and minima that are equal
    under Python's [==]. *)
Theorem analyzer_order_independent (data data' : list spec_float) (w : world) :
  Permutation data data' -> data <> [] -> Forall finite_float data ->
  exists avg mx mn mx' mn',
    analyze_energy_usage data w = (inr (insights_record avg mx mn), w) /\
    analyze_energy_usage data' w = (inr (insights_record avg mx' mn'), w) /\
    SFeqb mx mx' = true /\ SFeqb mn mn' = true.
Proof.
  intros Hp Hne Hfin.
  assert (Hne' : data' <> []).
  { intros ->. apply Permutation_sym, Permutation_nil in Hp. contradiction. }
  assert (Hfin' : Forall finite_float data').
  { rewrite List.Forall_forall in *. intros x Hx. apply Hfin.
    apply (Permutation_in x (Permutation_sym Hp) Hx). }
  destruct (analyze_energy_usage_finite_explicit data w Hne Hfin)
    as (mx & mn & E & Imx & Imn & Hb & _).
  destruct (analyze_energy_usage_finite_explicit data' w Hne' Hfin')
    as (mx' & mn' & E' & Imx' & Imn' & Hb' & _).
  rewrite <- (sum_Z_permutation _ _ (Permutation_map F2Z Hp)) in E'.
  rewrite <- (Permutation_length Hp) in E'.
  eexists _, mx, mn, mx', mn'. split; [exact E|]. split; [exact E'|].
  rewrite List.Forall_forall in Hfin, Hfin', Hb, Hb'.
  destruct (Hfin mx Imx) as [Vx Fx]. destruct (Hfin mn Imn) as [Vn Fn].
  destruct (Hfin' mx' Imx') as [Vx' Fx']. destruct (Hfin' mn' Imn') as [Vn' Fn'].
  pose proof (Hb mx' (Permutation_in _ (Permutation_sym Hp) Imx')) as H1.
  pose proof (Hb mn' (Permutation_in _ (Permutation_sym Hp) Imn')) as H2.
  pose proof (Hb' mx (Permutation_in _ Hp Imx)) as H3.
  pose proof (Hb' mn (Permutation_in _ Hp Imn)) as H4.
  unfold SFeqb. rewrite !compare_finite by assumption.
  replace (F2Z mx) with (F2Z mx') by lia. replace (F2Z mn) with (F2Z mn') by lia.
  rewrite !Z.compare_refl. auto.
Qed.

Lemma analyzer_order_independent_witness :
  Permutation [float_of_int 200; float_of_int 800] [float_of_int 800; float_of_int 200] /\
  exists avg mx mn mx' mn',
    analyze_energy_usage [float_of_int 200; float_of_int 800] quiet_world =
      (inr (insights_record avg mx mn), quiet_world) /\
    analyze_energy_usage [float_of_int 800; float_of_int 200] quiet_world =
      (inr (insights_record avg mx' mn'), quiet_world).
Proof.
  assert (Hp : Permutation [float_of_int 200; float_of_int 800]
                           [float_of_int 800; float_of_int 200]) by apply perm_swap.
  assert (Hne : [float_of_int 200; float_of_int 800] <> []) by discriminate.
  assert (Hfin : Forall finite_float [float_of_int 200; float_of_int 800]).
  { repeat (apply List.Forall_cons; [split; vm_compute; reflexivity|]).
    apply List.Forall_nil. }
  split; [exact Hp|].
  destruct (analyzer_order_independent _ _ quiet_world Hp Hne Hfin)
    as (avg & mx & mn & mx' & mn' & E & E' & _).
  exists avg, mx, mn, mx', mn'. auto.
Defined.

End AnalyzerOrder.

(** * Beyond the claims: the runner on any series *)

Section RunnerCoverage.

(** The runner's [try] body from the analysis on, for a record with its
    three fields. *)
Lemma run_on_record (avg mx mn : spec_float) (w : world) :
  exists w',
    run_on_insights (insights_record avg mx mn) w = (inr tt, w') /\
    rng w' = rng w /\ rng_pos w' = rng_pos w /\
    log w' = log w ++ summary_lines (insights_record avg mx mn) ++
      map tip_line (select_tips (SFcompare avg (float_of_int 750))
                                (SFcompare avg (float_of_int 500))).
Proof.
  destruct (insights_record_lookup avg mx mn) as (La & _ & _).
  unfold run_on_insights.
  destruct (Nat.eqb (size (insights_record avg mx mn)) 0) eqn:Hs.
  { apply Nat.eqb_eq in Hs. apply map_size_empty_iff in Hs.
    exfalso. exact (insights_record_nonempty _ _ _ Hs). }
  unfold bind, logging_info, logging_emit, dict_getitem. rewrite La. unfold ret.
  rewrite provide_recommendations_float.
  set (tips := select_tips _ _).
  destruct (for_each_info tips
              (logged INFO "Energy Conservation Recommendations:" ArgNone
                 (logged INFO "Energy Usage Insights: "
                    (ArgDict (insights_record avg mx mn)) w)))
    as (w' & E & Hr & Hp & Hlog).
  exists w'. split; [exact E|]. rewrite Hr, Hp, Hlog. cbn [logged log rng rng_pos].
  unfold summary_lines. rewrite <- !app_assoc. auto.
Qed.

(** X5: a single NaN among the readings goes unnoticed: the analyzer
    returns a record whose average is NaN without logging anything, and the
    runner then logs the summary and the doing-great tip, and no error. *)
Theorem nan_reading_reports_doing_great (data : list spec_float) (w : world) :
  In S754_nan data ->
  exists mx mn w',
    analyze_energy_usage data w = (inr (insights_record S754_nan mx mn), w) /\
    run_guarded (run_on_data data) w = (inr tt, w') /\
    log w' = log w ++ summary_lines (insights_record S754_nan mx mn) ++
      [tip_line "You're doing great! Continue monitoring for further improvements."].
Proof.
  intros Hin. pose proof (statistics_mean_nan data w Hin) as Ea.
  destruct data as [|x rest]; [contradiction|].
  destruct (py_max_in x rest w) as (mx & Emx & _).
  destruct (py_min_in x rest w) as (mn & Emn & _).
  assert (E : analyze_energy_usage (x :: rest) w =
              (inr (insights_record S754_nan mx mn), w)).
  { unfold analyze_energy_usage, analyze_energy_usage_try, try_except, bind.
    rewrite Ea, Emx, Emn. reflexivity. }
  destruct (run_on_record S754_nan mx mn w) as (w' & Er & _ & _ & Hlog).
  exists mx, mn, w'. split; [exact E|]. split; [|exact Hlog].
  unfold run_guarded, try_except, run_on_data, bind. rewrite E, Er. reflexivity.
Qed.

Lemma nan_reading_reports_doing_great_witness :
  In S754_nan [float_of_int 900; S754_nan; float_of_int 950] /\
  exists mx mn w',
    run_guarded (run_on_data [float_of_int 900; S754_nan; float_of_int 950]) quiet_world =
      (inr tt, w') /\
    log w' = log quiet_world ++ summary_lines (insights_record S754_nan mx mn) ++
      [tip_line "You're doing great! Continue monitoring for further improvements."].
Proof.
  assert (Hin : In S754_nan [float_of_int 900; S754_nan; float_of_int 950])
    by (right; left; reflexivity).
  split; [exact Hin|].
  destruct (nan_reading_reports_doing_great _ quiet_world Hin) as (mx & mn & w' & _ & E & L).
  exists mx, mn, w'. auto.
Defined.



End RunnerCoverage.

(** * Beyond the claims: the recommender *)

Section RecommenderCoverage.

Lemma provide_recommendations_not_number (v : pyval) (w : world) :
  is_number v = false ->
  provide_recommendations v w =
  (inr [], logged ERROR "Error providing recommendations: "
             (ArgExn (not_supported ">" (type_name v) "int")) w).
Proof. destruct v; try discriminate; reflexivity. Qed.

(** X7: the recommender never raises, and its empty list is an unambiguous
    failure signal: for a number (float or int) it returns a non-empty list
    and logs nothing; for anything else it returns the empty list and logs
    one error line carrying the [TypeError] of the first comparison. *)
Theorem recommender_empty_iff_not_number (v : pyval) (w : world) :
  exists tips w',
    provide_recommendations v w = (inr tips, w') /\
    (tips = [] <-> is_number v = false) /\
    (is_number v = true -> w' = w) /\
    (is_number v = false ->
     w' = logged ERROR "Error providing recommendations: "
            (ArgExn (not_supported ">" (type_name v) "int")) w).
Proof.
  destruct v as [f|n|s|].
  - rewrite provide_recommendations_float. eexists _, _. split; [reflexivity|].
    destruct (select_tips_nonempty (SFcompare f (float_of_int 750))
                (SFcompare f (float_of_int 500))) as [Hn _].
    cbn [is_number]. repeat split; try discriminate; tauto.
  - rewrite provide_recommendations_int. eexists _, _. split; [reflexivity|].
    destruct (select_tips_nonempty (Some (n ?= 750)) (Some (n ?= 500))) as [Hn _].
    cbn [is_number]. repeat split; try discriminate; tauto.
  - rewrite provide_recommendations_not_number by reflexivity.
    eexists _, _. split; [reflexivity|]. cbn [is_number].
    repeat split; try discriminate; auto.
  - rewrite provide_recommendations_not_number by reflexivity.
    eexists _, _. split; [reflexivity|]. cbn [is_number].
    repeat split; try discriminate; auto.
Qed.

(** X8: on an int the bands are read off the integer itself: above 750 the
    high-usage tips, from 501 to 750 the moderate-usage tips, up to 500 the
    doing-great tip, and conversely each list is returned for the ints of
    its band only. *)
Theorem recommender_int_bands (n : Z) (w : world) :
  (provide_recommendations (PyInt n) w = (inr tips_high, w) <-> 750 < n) /\
  (provide_recommendations (PyInt n) w = (inr tips_moderate, w) <-> 500 < n <= 750) /\
  (provide_recommendations (PyInt n) w = (inr tips_low, w) <-> n <= 500).
Proof.
  rewrite provide_recommendations_int.
  destruct (Z.compare_spec n 750) as [E7|E7|E7];
    destruct (Z.compare_spec n 500) as [E5|E5|E5]; cbn [select_tips];
    repeat split; intros; try lia; try reflexivity;
    unfold tips_high, tips_moderate, tips_low, tip_appliances, tip_insulation,
      tip_unplug, tip_thermostats, tip_great in *;
    match goal with H : (inr _, _) = (inr _, _) |- _ => discriminate H end.
Qed.

Lemma above_finite (f : spec_float) (t : Z) :
  is_finite f = true -> (above f t <-> t * 2 ^ 1074 < F2Z f).
Proof.
  intros Hf. destruct f; try discriminate;
    unfold above, Qlt, F2Q, inject_Z; cbn [Qnum Qden];
    rewrite Z.mul_1_r; change (Z.pos (2 ^ 1074)) with (2 ^ 1074); reflexivity.
Qed.

Lemma at_most_finite (f : spec_float) (t : Z) :
  is_finite f = true -> (at_most f t <-> F2Z f <= t * 2 ^ 1074).
Proof.
  intros Hf. destruct f; try discriminate;
    unfold at_most, Qle, F2Q, inject_Z; cbn [Qnum Qden];
    rewrite Z.mul_1_r; change (Z.pos (2 ^ 1074)) with (2 ^ 1074); reflexivity.
Qed.

(** The list selected for a float, by the band of its value. *)
Lemma select_tips_band (f : spec_float) :
  valid f = true ->
  let tips := select_tips (SFcompare f (float_of_int 750)) (SFcompare f (float_of_int 500)) in
  (above f 750 /\ tips = tips_high) \/
  (above f 500 /\ at_most f 750 /\ tips = tips_moderate) \/
  (at_most f 500 /\ tips = tips_low) \/
  (f = S754_nan /\ tips = tips_low).
Proof.
  intros Hv tips. unfold tips.
  destruct (threshold_750 f Hv) as [Ha7 Hm7].
  destruct (threshold_500 f Hv) as [Ha5 Hm5].
  assert (Hnan : SFcompare f (float_of_int 750) = None -> f = S754_nan).
  { rewrite float_of_int_750.
    destruct f as [s|[]| |[] m e]; cbn [SFcompare]; try discriminate; auto. }
  destruct (SFcompare f (float_of_int 750)) as [[]|] eqn:E7.
  - destruct (SFcompare f (float_of_int 500)) as [[]|] eqn:E5; cbn [select_tips].
    + right. right. left. split; [apply Hm5; auto|reflexivity].
    + right. right. left. split; [apply Hm5; auto|reflexivity].
    + right. left. split; [apply Ha5; reflexivity|].
      split; [apply Hm7; auto|reflexivity].
    + exfalso. rewrite float_of_int_500 in E5. rewrite float_of_int_750 in E7.
      destruct f as [s|[]| |[] m e]; cbn [SFcompare] in E5, E7; discriminate.
  - destruct (SFcompare f (float_of_int 500)) as [[]|] eqn:E5; cbn [select_tips].
    + right. right. left. split; [apply Hm5; auto|reflexivity].
    + right. right. left. split; [apply Hm5; auto|reflexivity].
    + right. left. split; [apply Ha5; reflexivity|].
      split; [apply Hm7; auto|reflexivity].
    + exfalso. rewrite float_of_int_500 in E5. rewrite float_of_int_750 in E7.
      destruct f as [s|[]| |[] m e]; cbn [SFcompare] in E5, E7; discriminate.
  - left. split; [apply Ha7; reflexivity|reflexivity].
  - right. right. right. split; [auto|].
    rewrite (Hnan eq_refl). reflexivity.
Qed.

End RecommenderCoverage.

Section BandCoverage.

Lemma above_not_at_most (f : spec_float) (t : Z) : above f t -> at_most f t -> False.
Proof.
  destruct f as [s|s| |s m e]; cbn [above at_most]; intros Ha Hm;
    try contradiction; try congruence; exact (Qlt_not_le _ _ Ha Hm).
Qed.

Lemma above_weaken (f : spec_float) (t u : Z) : u <= t -> above f t -> above f u.
Proof.
  intros Htu. destruct f; cbn [above]; auto; intros H;
    (eapply Qle_lt_trans; [|exact H]); unfold Qle, inject_Z; cbn [Qnum Qden]; lia.
Qed.

Ltac distinct_tips :=
  unfold tips_high, tips_moderate, tips_low, tip_appliances, tip_insulation,
    tip_unplug, tip_thermostats, tip_great in *;
  match goal with H : (inr _, _) = (inr _, _) |- _ => discriminate H end.

(** X9: on a float the returned list tells the band, and only the band:
    the high-usage tips are returned exactly for values above 750, the
    moderate-usage tips exactly for values above 500 and at most 750, and
    the doing-great tip exactly for values at most 500 and for NaN. *)
Theorem recommender_float_bands (average : spec_float) (w : world) :
  valid average = true ->
  (provide_recommendations (PyFloat average) w = (inr tips_high, w) <->
   above average 750) /\
  (provide_recommendations (PyFloat average) w = (inr tips_moderate, w) <->
   above average 500 /\ at_most average 750) /\
  (provide_recommendations (PyFloat average) w = (inr tips_low, w) <->
   at_most average 500 \/ average = S754_nan).
Proof.
  intros Hv. rewrite provide_recommendations_float.
  pose proof (above_not_at_most average 750) as X7.
  pose proof (above_not_at_most average 500) as X5.
  pose proof (above_weaken average 750 500 ltac:(lia)) as W1.
  pose proof (at_most_weaken average 500 750 ltac:(lia)) as W2.
  assert (N1 : average = S754_nan -> above average 500 -> False) by (intros ->; auto).
  assert (N2 : average = S754_nan -> above average 750 -> False) by (intros ->; auto).
  destruct (select_tips_band average Hv) as [[Hb ->]|[(Hb1 & Hb2 & ->)|[[Hb ->]|[Hb ->]]]];
    (split; [|split]); split; intros H; try reflexivity; try tauto;
    try distinct_tips;
    exfalso; intuition eauto.
Qed.

Lemma recommender_float_bands_witness :
  valid (float_of_int 750) = true /\
  (provide_recommendations (PyFloat (float_of_int 750)) quiet_world =
     (inr tips_moderate, quiet_world) <->
   above (float_of_int 750) 500 /\ at_most (float_of_int 750) 750).
Proof.
  assert (Hv : valid (float_of_int 750) = true) by (vm_compute; reflexivity).
  split; [exact Hv|].
  exact (proj1 (proj2 (recommender_float_bands (float_of_int 750) quiet_world Hv))).
Defined.

End BandCoverage.

(** * Beyond the claims: a run end to end *)

Section PipelineCoverage.

Lemma uniform_value_reading (k : Z) : reading (uniform_value 200 1000 k).
Proof.
  destruct (random_draw_value k) as [Fr Hr].
  destruct (scaled_draw_value _ Fr Hr) as [Ft Ht].
  destruct (shifted_draw_value _ Ft Ht) as [Fv Hv].
  apply reading_of_bounds; assumption.
Qed.

Lemma reading_bounds (v : spec_float) :
  reading v <-> finite_float v /\ 200 * 2 ^ 1074 <= F2Z v < 1000 * 2 ^ 1074.
Proof.
  unfold reading, Qle, Qlt, F2Q, inject_Z. cbn [Qnum Qden].
  change (Z.pos (2 ^ 1074)) with (2 ^ 1074). rewrite !Z.mul_1_r. tauto.
Qed.

Lemma generate_mock_data_draws (w : world) :
  generate_mock_data w =
  (inr (map (fun i => uniform_value 200 1000 (rng w (rng_pos w + i)%nat)) (seq 0 (24 * 7))),
   World (rng w) (rng_pos w + 24 * 7)%nat (log w)).
Proof.
  unfold generate_mock_data, generate_mock_data_with, generate_mock_data_try,
    try_except, bind.
  rewrite list_comp_uniform. reflexivity.
Qed.

(** A whole run, stage by stage. *)
Lemma run_smart_conserve_spec (w : world) :
  let data := map (fun i => uniform_value 200 1000 (rng w (rng_pos w + i)%nat))
                  (seq 0 (24 * 7)) in
  exists avg mx mn w',
    run_smart_conserve w = (inr tt, w') /\
    rng w' = rng w /\ rng_pos w' = (rng_pos w + 24 * 7)%nat /\
    log w' = log w ++ summary_lines (insights_record avg mx mn) ++
      map tip_line (select_tips (SFcompare avg (float_of_int 750))
                                (SFcompare avg (float_of_int 500))) /\
    In mx data /\ In mn data /\ finite_float avg /\
    F2Z mn <= F2Z avg <= F2Z mx.
Proof.
  intros data.
  assert (Hread : Forall reading data).
  { apply List.Forall_forall. intros v Hv. apply in_map_iff in Hv.
    destruct Hv as (i & <- & _). apply uniform_value_reading. }
  assert (Hfin : Forall finite_float data).
  { eapply Forall_impl; [exact Hread|]. apply reading_finite. }
  assert (Hne : data <> []).
  { intros H. apply (f_equal (@length _)) in H. unfold data in H.
    rewrite length_map, length_seq in H. discriminate H. }
  set (w1 := World (rng w) (rng_pos w + 24 * 7)%nat (log w)).
  destruct (analyze_energy_usage_finite_explicit data w1 Hne Hfin)
    as (mx & mn & Ea & Imx & Imn & _ & Hr & Fa & Za).
  set (avg := Z2F false _) in *.
  destruct (run_on_record avg mx mn w1) as (w' & Er & Hrng & Hpos & Hlog).
  exists avg, mx, mn, w'.
  split; [|split; [exact Hrng|split; [exact Hpos|split; [exact Hlog|]]];
           split; [exact Imx|split; [exact Imn|split; [exact Fa|]]];
           rewrite Za; exact Hr].
  unfold run_smart_conserve, run_guarded, run_smart_conserve_try, try_except, bind.
  rewrite generate_mock_data_draws. fold data. fold w1.
  unfold run_on_data. destruct data as [|x rest] eqn:Ed; [congruence|].
  unfold bind. rewrite Ea, Er. reflexivity.
Qed.

(** X10: a run end to end: it returns normally having read exactly 168
    draws; the logged minimum, average and maximum are floats in
    [[200, 1000)] with [min_usage <= average_usage <= max_usage]; and the
    tips logged are those of the band of the logged average. *)
Theorem run_reports_band_of_average (w : world) :
  exists avg mx mn tips w',
    run_smart_conserve w = (inr tt, w') /\
    rng_pos w' = (rng_pos w + 168)%nat /\
    log w' = log w ++ summary_lines (insights_record avg mx mn) ++ map tip_line tips /\
    reading mn /\ reading avg /\ reading mx /\
    float_le mn avg = true /\ float_le avg mx = true /\
    ((above avg 750 /\ tips = tips_high) \/
     (above avg 500 /\ at_most avg 750 /\ tips = tips_moderate) \/
     (at_most avg 500 /\ tips = tips_low)).
Proof.
  destruct (run_smart_conserve_spec w)
    as (avg & mx & mn & w' & E & _ & Hpos & Hlog & Imx & Imn & Fa & Hb).
  apply in_map_iff in Imx. destruct Imx as (i & Ei & _).
  apply in_map_iff in Imn. destruct Imn as (j & Ej & _).
  pose proof (uniform_value_reading (rng w (rng_pos w + i)%nat)) as Rmx.
  pose proof (uniform_value_reading (rng w (rng_pos w + j)%nat)) as Rmn.
  rewrite Ei in Rmx. rewrite Ej in Rmn. clear i j Ei Ej.
  assert (Ravg : reading avg).
  { apply reading_bounds.
    destruct (proj1 (reading_bounds mx) Rmx) as [_ Bx].
    destruct (proj1 (reading_bounds mn) Rmn) as [_ Bn].
    split; [exact Fa|]. lia. }
  destruct Fa as [Va Ffa].
  destruct (reading_finite _ Rmx) as [Vx Fx]. destruct (reading_finite _ Rmn) as [Vn Fn].
  exists avg, mx, mn,
    (select_tips (SFcompare avg (float_of_int 750)) (SFcompare avg (float_of_int 500))), w'.
  split; [exact E|]. split; [exact Hpos|]. split; [exact Hlog|].
  split; [exact Rmn|]. split; [exact Ravg|]. split; [exact Rmx|].
  rewrite !float_le_finite by assumption.
  split; [apply Z.leb_le; lia|]. split; [apply Z.leb_le; lia|].
  destruct (select_tips_band avg Va) as [H|[H|[H|[Hn _]]]]; auto.
  rewrite Hn in Ffa. discriminate Ffa.
Qed.

End PipelineCoverage.

Section ConstantSource.

Lemma above_same_value (f g : spec_float) (t : Z) :
  is_finite f = true -> is_finite g = true -> F2Z f = F2Z g -> above f t -> above g t.
Proof.
  intros Ff Fg E H. apply above_finite; [exact Fg|].
  apply above_finite in H; [|exact Ff]. lia.
Qed.

Lemma at_most_same_value (f g : spec_float) (t : Z) :
  is_finite f = true -> is_finite g = true -> F2Z f = F2Z g -> at_most f t -> at_most g t.
Proof.
  intros Ff Fg E H. apply at_most_finite; [exact Fg|].
  apply at_most_finite in H; [|exact Ff]. lia.
Qed.

(** A run on a random source that always makes the same draw. *)
Lemma run_constant_source (k : Z) (pos : nat) (lg : list log_record) :
  let v := uniform_value 200 1000 k in
  exists avg tips w',
    run_smart_conserve (World (fun _ => k) pos lg) = (inr tt, w') /\
    log w' = lg ++ summary_lines (insights_record avg v v) ++ map tip_line tips /\
    SFeqb avg v = true /\
    ((above v 750 /\ tips = tips_high) \/
     (above v 500 /\ at_most v 750 /\ tips = tips_moderate) \/
     (at_most v 500 /\ tips = tips_low)).
Proof.
  intros v.
  destruct (run_smart_conserve_spec (World (fun _ => k) pos lg))
    as (avg & mx & mn & w' & E & _ & _ & Hlog & Imx & Imn & [Va Fa] & Hb).
  cbn [rng rng_pos log] in *.
  apply in_map_iff in Imx. destruct Imx as (i & Ei & _).
  apply in_map_iff in Imn. destruct Imn as (j & Ej & _).
  fold v in Ei, Ej. subst mx mn.
  destruct (reading_finite _ (uniform_value_reading k)) as [Vv Fv]. fold v in Vv, Fv.
  assert (Ez : F2Z avg = F2Z v) by lia.
  exists avg, (select_tips (SFcompare avg (float_of_int 750))
                           (SFcompare avg (float_of_int 500))), w'.
  split; [exact E|]. split; [exact Hlog|]. split.
  { unfold SFeqb. rewrite compare_finite by assumption. rewrite Ez, Z.compare_refl.
    reflexivity. }
  destruct (select_tips_band avg Va) as [[H ->]|[(H1 & H2 & ->)|[[H ->]|[Hn _]]]].
  - left. split; [|reflexivity]. exact (above_same_value avg v 750 Fa Fv Ez H).
  - right. left. split; [exact (above_same_value avg v 500 Fa Fv Ez H1)|].
    split; [exact (at_most_same_value avg v 750 Fa Fv Ez H2)|reflexivity].
  - right. right. split; [|reflexivity]. exact (at_most_same_value avg v 500 Fa Fv Ez H).
  - rewrite Hn in Fa. discriminate Fa.
Qed.

(** X11: when every draw is the same, no rounding error enters the mean:
    the logged maximum and minimum are that one reading, the logged average
    equals it under Python's [==], and the tips are those of its band. *)
Theorem run_on_constant_source (k : Z) (pos : nat) (lg : list log_record) :
  exists avg tips w',
    run_smart_conserve (World (fun _ => k) pos lg) = (inr tt, w') /\
    log w' = lg ++ summary_lines (insights_record avg (uniform_value 200 1000 k)
                                    (uniform_value 200 1000 k)) ++
             map tip_line tips /\
    SFeqb avg (uniform_value 200 1000 k) = true /\
    ((above (uniform_value 200 1000 k) 750 /\ tips = tips_high) \/
     (above (uniform_value 200 1000 k) 500 /\ at_most (uniform_value 200 1000 k) 750 /\
      tips = tips_moderate) \/
     (at_most (uniform_value 200 1000 k) 500 /\ tips = tips_low)).
Proof. exact (run_constant_source k pos lg). Qed.

Lemma band_low_draw : at_most (uniform_value 200 1000 0) 500.
Proof. vm_compute. discriminate. Qed.

Lemma band_moderate_draw :
  above (uniform_value 200 1000 (2 ^ 52)) 500 /\ at_most (uniform_value 200 1000 (2 ^ 52)) 750.
Proof. split; vm_compute; [reflexivity|discriminate]. Qed.

Lemma band_high_draw : above (uniform_value 200 1000 (2 ^ 53 - 1)) 750.
Proof. vm_compute. reflexivity. Qed.

(** X12: no band of the recommender is dead in the pipeline: there is a
    random source on which a run logs the doing-great tip, one on which it
    logs the two moderate-usage tips, and one on which it logs the two
    high-usage tips. *)
Theorem every_band_is_reachable :
  (exists w d w', run_smart_conserve w = (inr tt, w') /\
     log w' = log w ++ summary_lines d ++ map tip_line tips_low) /\
  (exists w d w', run_smart_conserve w = (inr tt, w') /\
     log w' = log w ++ summary_lines d ++ map tip_line tips_moderate) /\
  (exists w d w', run_smart_conserve w = (inr tt, w') /\
     log w' = log w ++ summary_lines d ++ map tip_line tips_high).
Proof.
  pose proof (above_not_at_most (uniform_value 200 1000 0) 500) as L5.
  pose proof (above_weaken (uniform_value 200 1000 0) 750 500 ltac:(lia)) as L7.
  pose proof (above_not_at_most (uniform_value 200 1000 (2 ^ 52)) 750) as M7.
  pose proof (above_not_at_most (uniform_value 200 1000 (2 ^ 52)) 500) as M5.
  pose proof (above_not_at_most (uniform_value 200 1000 (2 ^ 53 - 1)) 750) as H7.
  pose proof (at_most_weaken (uniform_value 200 1000 (2 ^ 53 - 1)) 500 750 ltac:(lia)) as H5.
  pose proof band_low_draw as BL. destruct band_moderate_draw as [BM1 BM2].
  pose proof band_high_draw as BH.
  split; [|split].
  - destruct (run_constant_source 0 0 []) as (avg & tips & w' & E & Hlog & _ & Hb).
    exists (World (fun _ => 0) 0 []), (insights_record avg (uniform_value 200 1000 0)
                                         (uniform_value 200 1000 0)), w'.
    split; [exact E|]. rewrite Hlog.
    destruct Hb as [[Ha _]|[(Ha & _ & _)|[_ ->]]];
      [exfalso; exact (L5 (L7 Ha) BL)|exfalso; exact (L5 Ha BL)|reflexivity].
  - destruct (run_constant_source (2 ^ 52) 0 []) as (avg & tips & w' & E & Hlog & _ & Hb).
    exists (World (fun _ => 2 ^ 52) 0 []),
      (insights_record avg (uniform_value 200 1000 (2 ^ 52))
         (uniform_value 200 1000 (2 ^ 52))), w'.
    split; [exact E|]. rewrite Hlog.
    destruct Hb as [[Ha _]|[(_ & _ & ->)|[Ha _]]];
      [exfalso; exact (M7 Ha BM2)|reflexivity|exfalso; exact (M5 BM1 Ha)].
  - destruct (run_constant_source (2 ^ 53 - 1) 0 []) as (avg & tips & w' & E & Hlog & _ & Hb).
    exists (World (fun _ => 2 ^ 53 - 1) 0 []),
      (insights_record avg (uniform_value 200 1000 (2 ^ 53 - 1))
         (uniform_value 200 1000 (2 ^ 53 - 1))), w'.
    split; [exact E|]. rewrite Hlog.
    destruct Hb as [[_ ->]|[(_ & Ha & _)|[Ha _]]];
      [reflexivity|exfalso; exact (H7 BH Ha)|exfalso; exact (H7 BH (H5 Ha))].
Qed.

End ConstantSource.

Section InfiniteReadings.

(** [float(n)] for a positive int below [2^53] is a positive finite float. *)
Lemma float_of_int_small (n : Z) :
  0 < n < 2 ^ 53 -> exists m e, float_of_int n = S754_finite false m e.
Proof.
  intros Hn. unfold float_of_int.
  rewrite binary_normalize_correct by (unfold scale; lia).
  change (0 + scale) with 1074.
  assert (P : 0 < 2 ^ 1074) by (apply Z.pow_pos_nonneg; lia).
  assert (Hr : representable (n * 2 ^ 1074) = true)
    by (apply representable_mul_pow2; lia).
  assert (Hx : round_ne (n * 2 ^ 1074) 1 = n * 2 ^ 1074).
  { rewrite <- (round_ne_exact 1 _ Hr) at 2. f_equal. lia. }
  rewrite Hx.
  assert (Hi : in_range (n * 2 ^ 1074) = true).
  { unfold in_range, emax, scale. apply Z.ltb_lt.
    change (2 ^ (1024 + 1074)) with (2 ^ 53 * 2 ^ 1074 * 2 ^ 971).
    rewrite Z.abs_eq by nia. nia. }
  destruct (Z2F_pos false _ Hr Hi ltac:(nia)) as (m & E & _).
  eauto.
Qed.

Lemma fold_SFadd_infinity (s : bool) (l : list spec_float) :
  Forall (fun x => x = S754_infinity s) l ->
  fold_left (SFadd prec emax) l (S754_infinity s) = S754_infinity s.
Proof.
  induction 1 as [|x l Hx _ IH]; [reflexivity|].
  cbn [fold_left]. subst x. destruct s; exact IH.
Qed.

Lemma statistics_mean_infinity {S} (s : bool) (data : list spec_float) (st : S) :
  In (S754_infinity s) data ->
  ~ In S754_nan data -> ~ In (S754_infinity (negb s)) data ->
  Z.of_nat (length data) < 2 ^ 53 ->
  statistics_mean data st = (inr (S754_infinity s), st).
Proof.
  intros Hin Hnan Hopp Hlen.
  assert (Hall : Forall (fun x => x = S754_infinity s)
                   (List.filter (fun x => negb (is_finite x)) data)).
  { apply List.Forall_forall. intros x Hx. apply filter_In in Hx. destruct Hx as [Hx Hf].
    destruct x as [?|s'| |? ? ?]; try discriminate.
    - destruct s, s'; try reflexivity; exfalso; apply Hopp; exact Hx.
    - exfalso. exact (Hnan Hx). }
  assert (Hne : In (S754_infinity s) (List.filter (fun x => negb (is_finite x)) data)).
  { apply filter_In. split; [exact Hin|reflexivity]. }
  destruct data as [|x rest]; [contradiction|].
  destruct (float_of_int_small (Z.of_nat (length (x :: rest))))
    as (m & e & En); [cbn [length] in *; lia|].
  unfold statistics_mean.
  destruct (List.filter (fun x => negb (is_finite x)) (x :: rest)) as [|y ys];
    [contradiction|].
  inversion Hall as [|? ? Hy Hys]; subst.
  rewrite fold_SFadd_infinity by assumption. rewrite En.
  destruct s; reflexivity.
Qed.

(** X13: one infinite reading decides the recommendation: in a list of
    fewer than [2^53] floats with an infinity of one sign, no infinity of the
    other sign and no NaN, the average is that infinity and nothing is
    logged by the analyzer; the runner then logs the high-usage tips for
    plus infinity and the doing-great tip for minus infinity. *)
Theorem infinite_reading_decides (s : bool) (data : list spec_float) (w : world) :
  In (S754_infinity s) data ->
  ~ In S754_nan data -> ~ In (S754_infinity (negb s)) data ->
  Z.of_nat (length data) < 2 ^ 53 ->
  exists mx mn w',
    analyze_energy_usage data w = (inr (insights_record (S754_infinity s) mx mn), w) /\
    run_guarded (run_on_data data) w = (inr tt, w') /\
    log w' = log w ++ summary_lines (insights_record (S754_infinity s) mx mn) ++
      map tip_line (if s then tips_low else tips_high).
Proof.
  intros Hin Hnan Hopp Hlen.
  pose proof (statistics_mean_infinity s data w Hin Hnan Hopp Hlen) as Ea.
  destruct data as [|x rest]; [contradiction|].
  destruct (py_max_in x rest w) as (mx & Emx & _).
  destruct (py_min_in x rest w) as (mn & Emn & _).
  assert (E : analyze_energy_usage (x :: rest) w =
              (inr (insights_record (S754_infinity s) mx mn), w)).
  { unfold analyze_energy_usage, analyze_energy_usage_try, try_except, bind.
    rewrite Ea, Emx, Emn. reflexivity. }
  destruct (run_on_record (S754_infinity s) mx mn w) as (w' & Er & _ & _ & Hlog).
  exists mx, mn, w'. split; [exact E|]. split.
  - unfold run_guarded, try_except, run_on_data, bind. rewrite E, Er. reflexivity.
  - rewrite Hlog. rewrite float_of_int_750, float_of_int_500. destruct s; reflexivity.
Qed.

Lemma infinite_reading_decides_witness :
  In (S754_infinity false) [float_of_int 300; S754_infinity false] /\
  exists mx mn w',
    run_guarded (run_on_data [float_of_int 300; S754_infinity false]) quiet_world =
      (inr tt, w') /\
    log w' = log quiet_world ++
      summary_lines (insights_record (S754_infinity false) mx mn) ++
      map tip_line tips_high.
Proof.
  assert (Hin : In (S754_infinity false) [float_of_int 300; S754_infinity false])
    by (right; left; reflexivity).
  assert (Hnan : ~ In S754_nan [float_of_int 300; S754_infinity false]).
  { intros [H|[H|[]]]; [vm_compute in H|]; discriminate H. }
  assert (Hopp : ~ In (S754_infinity (negb false))
                    [float_of_int 300; S754_infinity false]).
  { intros [H|[H|[]]]; [vm_compute in H|]; discriminate H. }
  assert (Hlen : Z.of_nat (length [float_of_int 300; S754_infinity false]) < 2 ^ 53)
    by reflexivity.
  split; [exact Hin|].
  destruct (infinite_reading_decides false _ quiet_world Hin Hnan Hopp Hlen)
    as (mx & mn & w' & _ & E & L).
  exists mx, mn, w'. auto.
Defined.

End InfiniteReadings.
